(** * DumbbellChartPBI: the dumbbell chart visual ([src/visual.ts])

    A shallow embedding of [Visual.update] and [Visual.wrap] together with
    the parts of d3 and of the DOM they call, and the properties of the
    layout and of the label wrapper that the specification states.

    Conventions of the embedding.
    - A JavaScript number is [NaN] or a finite value; finite arithmetic is
      exact (canonical rationals [Qc]), so rounding and the two infinities
      are outside the model.  The arithmetic of the two position scales
      is also given in binary64 ([Binary64]), to tell what holds with
      rounding from what holds without it.
    - A JavaScript string is a [string] of code units below 256.
    - An SVG element is a tag with an attribute map, a style map and a
      content; [attr] with an undefined value removes the attribute, as
      d3-selection does.
    - The drawing surface is threaded explicitly: [update] takes the
      surface before the call and returns the surface after it.
    - d3 is the library the visual imports; its functions are embedded from
      the sources of d3 7: d3-array 3 ([max]), d3-scale 4 ([scaleLinear],
      [scalePoint], [scaleOrdinal]), d3-interpolate 3 ([interpolateNumber])
      and d3-selection 3 ([selectAll], [data], [enter], [append], [attr],
      [style], [text]). *)

From Stdlib Require Import QArith Qcanon ZArith Lia Lqa Ascii.
From Stdlib Require PrimFloat.
From stdpp Require Import base numbers list strings pretty gmap.

Local Open Scope Qc_scope.

(** ** JavaScript numbers *)

Module JS.

Inductive number : Type :=
  | NaN
  | Num (q : Qc).

#[global] Instance number_eq_dec : EqDecision number.
Proof. solve_decision. Defined.

(** [a + b], [a - b] and [a * b] on numbers: NaN is absorbing. *)
Definition add (a b : number) : number :=
  match a, b with
  | Num x, Num y => Num (x + y)
  | _, _ => NaN
  end.

Definition sub (a b : number) : number :=
  match a, b with
  | Num x, Num y => Num (x - y)
  | _, _ => NaN
  end.

Definition mul (a b : number) : number :=
  match a, b with
  | Num x, Num y => Num (x * y)
  | _, _ => NaN
  end.

(** [a / d] for a finite non-zero divisor [d]; every division of the visual
    and of the d3 functions it calls is guarded this way. *)
Definition div_by (a : number) (d : Qc) : number :=
  match a with
  | Num x => Num (x / d)
  | NaN => NaN
  end.

(** [a < b]: false as soon as one side is NaN. *)
Definition ltb (a b : number) : bool :=
  match a, b with
  | Num x, Num y => bool_decide (x < y)
  | _, _ => false
  end.

(** [Math.max(a, b)]: NaN as soon as one argument is NaN. *)
Definition Math_max (a b : number) : number :=
  match a, b with
  | Num x, Num y => Num (if bool_decide (x < y) then y else x)
  | _, _ => NaN
  end.

(** A value that may be [undefined]: [None] is [undefined]. *)
Definition value := option number.

(** [+v]: unary plus, [undefined] becomes NaN. *)
Definition to_number (v : value) : number :=
  match v with
  | Some x => x
  | None => NaN
  end.

Definition is_finite (x : number) : bool :=
  match x with Num _ => true | NaN => false end.

(** The cells of a measure column that the host hands over
    ([powerbi.PrimitiveValue]).  String and Date cells are left out: their
    conversion is the StringToNumber grammar and the Date time value. *)
Inductive PrimitiveValue : Type :=
  | PVNumber (x : number)
  | PVBoolean (b : bool)
  | PVNull
  | PVUndefined.

(** [Number(v)]. *)
Definition Number (v : PrimitiveValue) : number :=
  match v with
  | PVNumber x => x
  | PVBoolean true => Num 1
  | PVBoolean false => Num 0
  | PVNull => Num 0
  | PVUndefined => NaN
  end.

(** [a[i]] on an array of cells: out of range is [undefined]. *)
Definition index (a : list PrimitiveValue) (i : nat) : PrimitiveValue :=
  match a !! i with
  | Some v => v
  | None => PVUndefined
  end.

End JS.

Import JS.

(** ** d3: the functions the visual calls *)

Module d3.

(** *** d3-array: [max(values, valueof)]

    [max] starts undefined; a value replaces it when [max < value], or
    when [max] is still undefined and [value >= value] (which only NaN
    fails).  Undefined and NaN values are therefore skipped, and the
    result is undefined when nothing was kept. *)
Definition max_step (max : value) (v : number) : value :=
  if ltb (to_number max) v
     || (bool_decide (max = None) && is_finite v)
  then Some v else max.

Definition max {A : Type} (values : list A) (valueof : A -> number) : value :=
  foldl (fun m d => max_step m (valueof d)) None values.

(** *** d3-interpolate: [interpolateNumber(a, b)] is
    [t => a * (1 - t) + b * t]. *)
Definition interpolateNumber (a b : Qc) (t : number) : number :=
  add (mul (Num a) (sub (Num 1) t)) (mul (Num b) t).

(** *** d3-scale, continuous.js

    [normalize(a, b)]: with [b -= a], a non-zero finite width gives
    [x => (x - a) / b]; a zero width gives the constant 0.5 and a NaN
    width the constant NaN ([constant(isNaN(b) ? NaN : 0.5)]; early
    releases of d3-scale had the constant 0 there). *)
Definition normalize (a b : number) (x : number) : number :=
  match sub b a with
  | Num w => if bool_decide (w = 0) then Num (Q2Qc (1 # 2))
             else div_by (sub x a) w
  | NaN => NaN
  end.

(** [bimap(domain, range, interpolate)]: a descending domain swaps both
    the domain and the range. *)
Definition bimap (d0 d1 : number) (r0 r1 : Qc) (x : number) : number :=
  if ltb d1 d0
  then interpolateNumber r1 r0 (normalize d1 d0 x)
  else interpolateNumber r0 r1 (normalize d0 d1 x).

(** [scaleLinear().domain([d0, d1]).range([r0, r1])] applied to [x].
    The domain setter coerces with unary plus; the scale answers
    [unknown] (undefined) on NaN; clamp and transform are the identity. *)
Definition scaleLinear (d0 d1 : value) (r0 r1 : Qc) (x : number) : value :=
  match x with
  | NaN => None
  | Num _ => Some (bimap (to_number d0) (to_number d1) r0 r1 x)
  end.

(** *** d3-scale, ordinal.js

    The domain setter keeps the first occurrence of every key, in order,
    and records its position in [index]. *)
Definition ordinal_push (st : list string * gmap string nat) (v : string)
  : list string * gmap string nat :=
  match st.2 !! v with
  | Some _ => st
  | None => (st.1 ++ [v], <[v := length st.1]> st.2)
  end.

Definition ordinal_domain (vs : list string) : list string * gmap string nat :=
  foldl ordinal_push ([], ∅) vs.

(** [scaleOrdinal().domain(vs).range(range)] applied to [d]: the range
    entry at the key's position, cycling through the range.  A key
    outside the domain is given the next position (the implicit domain;
    the visual only asks for keys of the domain, which are found in the
    index, see [ordinal_domain_hit]). *)
Definition scaleOrdinal {R : Type} (vs : list string) (range : list R)
    (d : string) : option R :=
  let '(dom, index) := ordinal_domain vs in
  let i := default (length dom) (index !! d) in
  range !! (i mod length range)%nat.

(** *** d3-scale, band.js: [scalePoint] is a band scale with
    [paddingInner = 1], [paddingOuter = 0], [align = 0.5] and no
    rounding; a key outside the domain is undefined. *)
Definition paddingInner : Z := 1.
Definition paddingOuter : Z := 0.
Definition align : Qc := Q2Qc (1 # 2).

Definition point_values (n : nat) (r0 r1 : Qc) : list Qc :=
  let reverse := bool_decide (r1 < r0) in
  let start := if reverse then r1 else r0 in
  let stop := if reverse then r0 else r1 in
  let step :=
    (stop - start)
    / Qc_of_Z (Z.max 1 (Z.of_nat n - paddingInner + paddingOuter * 2)) in
  let start :=
    start + (stop - start - step * Qc_of_Z (Z.of_nat n - paddingInner)) * align in
  let values := (fun i => start + step * Qc_of_Z (Z.of_nat i)) <$> seq 0 n in
  if reverse then rev values else values.

Definition scalePoint (vs : list string) (r0 r1 : Qc) (d : string) : value :=
  let '(dom, index) := ordinal_domain vs in
  let range := point_values (length dom) r0 r1 in
  match index !! d with
  | None => None
  | Some i => Num <$> range !! (i mod length range)%nat
  end.

End d3.

(** ** The DOM fragment the visual builds *)

Inductive AttrValue : Type :=
  | ANum (x : number)
  | AStr (s : string).

#[global] Instance AttrValue_eq_dec : EqDecision AttrValue.
Proof. solve_decision. Defined.

Record Tspan : Type := mkTspan {
  ts_attrs : gmap string AttrValue;
  ts_text : string
}.

(** The content of an element: its text, or its [tspan] children. *)
Inductive Content : Type :=
  | Text (s : string)
  | Children (l : list Tspan).

Record Element : Type := mkElement {
  tag : string;
  attrs : gmap string AttrValue;
  styles : gmap string string;
  content : Content
}.

Record Svg : Type := mkSvg {
  svg_attrs : gmap string AttrValue;
  svg_children : list Element
}.

(** [document.createElementNS(svg, tag)]. *)
Definition createElement (tag : string) : Element :=
  {| tag := tag; attrs := ∅; styles := ∅; content := Text "" |}.

(** d3-selection works on the nodes of a selection together with the
    datum bound to each. *)
Module selection.

Section WithDatum.
Context {D : Type}.

Definition t : Type := list (Element * D).

(** [selection.attr(name, value)]: a null or undefined value removes the
    attribute, any other value sets it. *)
Definition set_attr (name : string) (v : option AttrValue) (e : Element)
  : Element :=
  {| tag := tag e;
     attrs := match v with
              | Some a => <[name := a]> (attrs e)
              | None => delete name (attrs e)
              end;
     styles := styles e;
     content := content e |}.

Definition set_style (name : string) (v : string) (e : Element) : Element :=
  {| tag := tag e; attrs := attrs e;
     styles := <[name := v]> (styles e); content := content e |}.

Definition set_text (s : string) (e : Element) : Element :=
  {| tag := tag e; attrs := attrs e; styles := styles e; content := Text s |}.

Definition each (f : D -> Element -> Element) (s : t) : t :=
  (fun ed => (f ed.2 ed.1, ed.2)) <$> s.

Definition attr (name : string) (f : D -> option AttrValue) : t -> t :=
  each (fun d => set_attr name (f d)).

Definition style (name : string) (v : string) : t -> t :=
  each (fun _ => set_style name v).

Definition text (f : D -> string) : t -> t :=
  each (fun d => set_text (f d)).

(** An element matches the selector [.cls] when that is its class; every
    class attribute the visual writes is a single name, and a [tspan]
    carries none. *)
Definition has_class (cls : string) (e : Element) : bool :=
  bool_decide (attrs e !! "class" = Some (AStr cls)).

(** [parent.selectAll("." + cls).data(data).enter()]: the join is by
    position, so the data beyond the elements already selected enter. *)
Definition enter (children : list Element) (cls : string) (data : list D)
  : list D :=
  drop (length (filter (fun e => Is_true (has_class cls e)) children)) data.

(** [enter.append(tag)]: one new element per entering datum. *)
Definition append (tag : string) (ds : list D) : t :=
  (fun d => (createElement tag, d)) <$> ds.

Definition nodes (s : t) : list Element := fst <$> s.

End WithDatum.

Arguments t : clear implicits.

End selection.

(** ** JavaScript strings: [split(/\s+/)] and [join(" ")] *)

Module JSString.

(** The class [\s] on code units below 256: tab, line feed, vertical tab,
    form feed, carriage return, space and no-break space. *)
Definition is_space (c : ascii) : bool :=
  match Ascii.N_of_ascii c with
  | 9 | 10 | 11 | 12 | 13 | 32 | 160 => true
  | _ => false
  end%N.

(** [s.split(/\s+/)]: every maximal run of white space is one separator;
    a run at the start or at the end leaves an empty string there, and
    the empty string splits into one empty string.  [cur] is the piece
    being read and [in_run] tells that the previous unit was white space. *)
Fixpoint split_from (in_run : bool) (cur : string) (s : string) : list string :=
  match s with
  | EmptyString => [cur]
  | String c s' =>
      if is_space c
      then (if in_run then split_from true cur s'
            else cur :: split_from true "" s')
      else split_from false (cur +:+ String c "") s'
  end.

Definition split (s : string) : list string := split_from false "" s.

(** [a.join(" ")]. *)
Definition join (a : list string) : string := String.concat " " a.

(** [a.pop()]: the last element, and the array without it. *)
Definition pop {A : Type} (a : list A) : option (A * list A) :=
  match last a with
  | Some x => Some (x, removelast a)
  | None => None
  end.

(** [a.push(x)]. *)
Definition push {A : Type} (a : list A) (x : A) : list A := a ++ [x].

End JSString.

(** ** The visual *)

Module Visual.

(** [VisualUpdateOptions] as far as [update] reads it.  A category cell
    is taken to be a string, on which [String(c)] is the identity. *)
Record Viewport : Type := mkViewport { width : Qc; height : Qc }.

Record DataViewCategorical : Type := mkCategorical {
  categories : option (list (list string));
  values : option (list (list PrimitiveValue))
}.

Record DataView : Type := mkDataView {
  categorical : option DataViewCategorical
}.

Record VisualUpdateOptions : Type := mkOptions {
  viewport : Viewport;
  dataViews : list DataView
}.

(** One entry of [data]. *)
Record Datum : Type := mkDatum {
  Categories : string;
  Value1 : number;
  Value2 : number
}.

(** How a call ends. *)
Inductive Completion : Type :=
  | Return
  | TypeError.

(** Constants *)
Record Margin : Type := mkMargin { left : Qc; right : Qc; top : Qc; bottom : Qc }.

Definition margin : Margin :=
  {| left := Qc_of_Z 100; right := Qc_of_Z 30;
     top := Qc_of_Z 60; bottom := Qc_of_Z 30 |}.
Definition circleRadius : Qc := Qc_of_Z 14.
Definition strokeWidth : Qc := Q2Qc (5 # 2).
Definition colourPalette : list string :=
  ["#0079EB"; "#375071"; "#A83DA4"; "#4289B3";
   "#9B7003"; "#293241"; "#006560"; "#4B195D"].

(** The extraction of [data]:
    [categories.map((c, i) => ({Categories: String(c),
       Value1: Number(value1[i]), Value2: Number(value2[i])}))]. *)
Definition extract (categories : list string) (value1 value2 : list PrimitiveValue)
  : list Datum :=
  imap (fun i c =>
          {| Categories := c;
             Value1 := Number (index value1 i);
             Value2 := Number (index value2 i) |}) categories.

(** *** Scales *)

Definition maxValue (data : list Datum) : value :=
  d3.max data (fun d => Math_max (Value1 d) (Value2 d)).

Definition xScale (data : list Datum) (width : Qc) : number -> value :=
  d3.scaleLinear (Some (Num 0)) (maxValue data)
                 (left margin) (width - right margin).

Definition yScale (data : list Datum) (height : Qc) : string -> value :=
  d3.scalePoint (Categories <$> data) (top margin) (height - bottom margin).

Definition colourScale (data : list Datum) : string -> option string :=
  d3.scaleOrdinal (Categories <$> data) colourPalette.

(** *** Attribute values *)

Definition num (q : Qc) {D : Type} : D -> option AttrValue :=
  fun _ => Some (ANum (Num q)).
Definition str (s : string) {D : Type} : D -> option AttrValue :=
  fun _ => Some (AStr s).
(** A computed number: always set, NaN included. *)
Definition number_attr (x : number) : option AttrValue := Some (ANum x).
(** A value a scale returned: undefined leaves the attribute unset. *)
Definition value_attr (v : value) : option AttrValue := ANum <$> v.
Definition colour_attr (c : option string) : option AttrValue := AStr <$> c.

Notation "s |> f" := (f s) (at level 45, left associativity, only parsing).

Section Surface.

(** [getComputedTextLength()] of a [tspan] holding the given text, and
    the text the DOM shows for a number ([String(x)]); both belong to
    the rendering surface. *)
Variable measure : string -> Qc.
Variable number_toString : number -> string.

(** *** Text wrapping function *)

Definition lineHeight : string := "1.2em".

(** The variables of the loop of [wrap]: the [tspan]s already left
    behind, the current [tspan] and [line]. *)
Record WrapState : Type := mkWrap {
  finished : list Tspan;
  tspan : Tspan;
  line : list string
}.

(** [text.append("tspan").attr("x", 0).attr("dy", dy)], then [.text(s)]. *)
Definition new_tspan (dy : string) (s : string) : Tspan :=
  {| ts_attrs := <["dy" := AStr dy]> (<["x" := ANum (Num 0)]> ∅);
     ts_text := s |}.

Definition tspan_text (s : string) (t : Tspan) : Tspan :=
  {| ts_attrs := ts_attrs t; ts_text := s |}.

(** The body of the loop for one [word]. *)
Definition wrap_body (width : Qc) (word : string) (st : WrapState) : WrapState :=
  let line := JSString.push (line st) word in
  let tspan := tspan_text (JSString.join line) (tspan st) in
  if bool_decide (width < measure (ts_text tspan)) then
    let line := removelast line in
    let tspan := tspan_text (JSString.join line) tspan in
    {| finished := finished st ++ [tspan];
       tspan := new_tspan lineHeight word;
       line := [word] |}
  else
    {| finished := finished st; tspan := tspan; line := line |}.

(** [while ((word = words.pop())) { ... }]: the loop stops when [words]
    is exhausted or when the word popped is the empty string, which is
    falsy. *)
Fixpoint while_pop (fuel : nat) (width : Qc) (words : list string)
    (st : WrapState) : WrapState :=
  match fuel with
  | O => st
  | S fuel =>
      match JSString.pop words with
      | None => st
      | Some (word, words) =>
          if bool_decide (word = "") then st
          else while_pop fuel width words (wrap_body width word st)
      end
  end.

(** [wrap] on one text: the [tspan]s the [text] element ends up with. *)
Definition wrap_text (text : string) (width : Qc) : list Tspan :=
  let words := rev (JSString.split text) in
  let text_tspan := new_tspan "0em" "" in
  let st := {| finished := []; tspan := text_tspan; line := [] |} in
  let st := while_pop (length words) width words st in
  finished st ++ [tspan st].

Definition textContent (c : Content) : string :=
  match c with
  | Text s => s
  | Children l => String.concat "" (ts_text <$> l)
  end.

Definition wrap {D : Type} (textSelection : selection.t D) (width : Qc)
  : selection.t D :=
  selection.each
    (fun _ e => {| tag := tag e; attrs := attrs e; styles := styles e;
                   content := Children (wrap_text (textContent (content e)) width) |})
    textSelection.

(** *** [update] *)

(** [svg.selectAll("." + cls).data(data).enter().append(tag)] followed
    by the calls of [build]; the new elements come after the children
    the surface already has. *)
Definition layer (svg : Svg) (cls tag : string) (data : list Datum)
    (build : selection.t Datum -> selection.t Datum) : Svg :=
  {| svg_attrs := svg_attrs svg;
     svg_children :=
       svg_children svg
       ++ selection.nodes
            (build (selection.append tag
                      (selection.enter (svg_children svg) cls data))) |}.

Definition fontSize : string := "12px".

(** The seven chains of [update], each named after its class. *)
Section Chains.

Variable data : list Datum.
Variables width height : Qc.

Let x (v : number) : value := xScale data width v.
Let y (d : Datum) : option AttrValue :=
  value_attr (yScale data height (Categories d)).
Let colour (d : Datum) : option AttrValue :=
  colour_attr (colourScale data (Categories d)).

(* Horizontal Gridlines *)
Definition horizontalGridlines (s : selection.t Datum) : selection.t Datum :=
  s
  |> selection.attr "class" (str "horizontalGridlines")
  |> selection.attr "x1" (num (left margin))
  |> selection.attr "x2" (fun d =>
       number_attr (sub (to_number (x (Value1 d))) (Num circleRadius)))
  |> selection.attr "y1" y
  |> selection.attr "y2" y
  |> selection.attr "opacity" (num (Q2Qc (9 # 10)))
  |> selection.attr "stroke-width" (num 1)
  |> selection.attr "stroke-dasharray" (str "3 3")
  |> selection.attr "stroke" (str "#CACACA").

(* Lines between Value1 and Value2 *)
Definition linesV1V2 (s : selection.t Datum) : selection.t Datum :=
  s
  |> selection.attr "class" (str "linesV1V2")
  |> selection.attr "x1" (fun d =>
       number_attr (add (to_number (x (Value1 d))) (Num circleRadius)))
  |> selection.attr "x2" (fun d =>
       number_attr (sub (to_number (x (Value2 d))) (Num circleRadius)))
  |> selection.attr "y1" y
  |> selection.attr "y2" y
  |> selection.attr "stroke-width" (num strokeWidth)
  |> selection.attr "stroke" colour.

(* Value1 circles *)
Definition circles1 (s : selection.t Datum) : selection.t Datum :=
  s
  |> selection.attr "class" (str "circles1")
  |> selection.attr "cx" (fun d => value_attr (x (Value1 d)))
  |> selection.attr "cy" y
  |> selection.attr "r" (num circleRadius)
  |> selection.attr "fill" (str "white")
  |> selection.attr "stroke-width" (num strokeWidth)
  |> selection.attr "stroke" colour.

(* Value2 circles *)
Definition circles2 (s : selection.t Datum) : selection.t Datum :=
  s
  |> selection.attr "class" (str "circles2")
  |> selection.attr "cx" (fun d => value_attr (x (Value2 d)))
  |> selection.attr "cy" y
  |> selection.attr "r" (num circleRadius)
  |> selection.attr "fill" colour
  |> selection.attr "stroke-width" (num strokeWidth)
  |> selection.attr "stroke" colour.

(* Value1 Labels *)
Definition value1Labels (s : selection.t Datum) : selection.t Datum :=
  s
  |> selection.attr "class" (str "value1Labels")
  |> selection.attr "x" (fun d => value_attr (x (Value1 d)))
  |> selection.attr "y" y
  |> selection.attr "text-anchor" (str "middle")
  |> selection.attr "alignment-baseline" (str "middle")
  |> selection.attr "fill" colour
  |> selection.style "font-size" fontSize
  |> selection.style "font-weight" "bold"
  |> selection.text (fun d => number_toString (Value1 d)).

(* Value2 Labels *)
Definition value2Labels (s : selection.t Datum) : selection.t Datum :=
  s
  |> selection.attr "class" (str "value2Labels")
  |> selection.attr "x" (fun d => value_attr (x (Value2 d)))
  |> selection.attr "y" y
  |> selection.attr "text-anchor" (str "middle")
  |> selection.attr "alignment-baseline" (str "middle")
  |> selection.attr "fill" (str "white")
  |> selection.style "font-size" fontSize
  |> selection.style "font-weight" "bold"
  |> selection.text (fun d => number_toString (Value2 d)).

(* Category Labels with wrap; 100px max width *)
Definition categoryLabels (s : selection.t Datum) : selection.t Datum :=
  wrap
    (s
     |> selection.attr "class" (str "categoryLabels")
     |> selection.attr "x" (num (left margin - Qc_of_Z 10))
     |> selection.attr "y" y
     |> selection.attr "text-anchor" (str "end")
     |> selection.attr "alignment-baseline" (str "middle")
     |> selection.text Categories)
    (Qc_of_Z 100).

Definition draw (svg : Svg) : Svg :=
  let svg := layer svg "horizontalGridlines" "line" data horizontalGridlines in
  let svg := layer svg "linesV1V2" "line" data linesV1V2 in
  let svg := layer svg "circles1" "circle" data circles1 in
  let svg := layer svg "circles2" "circle" data circles2 in
  let svg := layer svg "value1Labels" "text" data value1Labels in
  let svg := layer svg "value2Labels" "text" data value2Labels in
  layer svg "categoryLabels" "text" data categoryLabels.

End Chains.

(** [svg.attr("width", width).attr("height", height).selectAll("*").remove()] *)
Definition clear (width height : Qc) (svg : Svg) : Svg :=
  {| svg_attrs :=
       <["height" := ANum (Num height)]>
         (<["width" := ANum (Num width)]> (svg_attrs svg));
     svg_children := [] |}.

Definition update (svg : Svg) (options : VisualUpdateOptions)
  : Svg * Completion :=
  let width := width (viewport options) in
  let height := height (viewport options) in
  let svg := clear width height svg in
  match head (dataViews options) with
  | None => (svg, Return)
  | Some dataView =>
      match categorical dataView with
      | None => (svg, Return)
      | Some categorical =>
          match categories categorical, values categorical with
          | None, _ | _, None => (svg, Return)
          | Some categories, Some values =>
              if bool_decide (length values < 2)%nat then (svg, Return)
              else
                match categories, values with
                | categories0 :: _, value1 :: value2 :: _ =>
                    let data := extract categories0 value1 value2 in
                    (draw data width height svg, Return)
                | _, _ => (svg, TypeError)
                end
          end
      end
  end.

End Surface.

End Visual.

(** ** The position scales in binary64

    The same arithmetic as [d3.scaleLinear] and [d3.scalePoint] on the
    doubles the running code computes with.  The scale is applied to
    numbers only, never to NaN or undefined. *)

Module Binary64.

Import PrimFloat.
Local Open Scope float_scope.

Definition isNaN (x : float) : bool := negb (x =? x).

(** A number is truthy when it is neither zero nor NaN. *)
Definition truthy (x : float) : bool := negb (x =? 0) && negb (isNaN x).

(** [Math.max] on numbers that are not NaN. *)
Definition Math_max (a b : float) : float := if a <? b then b else a.

(** A count as a number (exact below 2^53). *)
Fixpoint of_nat (n : nat) : float :=
  match n with
  | O => 0
  | S k => of_nat k + 1
  end.

(** d3-interpolate: [t => a * (1 - t) + b * t]. *)
Definition interpolateNumber (a b t : float) : float := a * (1 - t) + b * t.

(** d3-scale, continuous.js: [normalize] and [bimap]. *)
Definition normalize (a b x : float) : float :=
  let b := b - a in
  if truthy b then (x - a) / b
  else if isNaN b then nan else 0.5.

Definition bimap (d0 d1 r0 r1 x : float) : float :=
  if d1 <? d0
  then interpolateNumber r1 r0 (normalize d1 d0 x)
  else interpolateNumber r0 r1 (normalize d0 d1 x).

Definition margin_left : float := 100.
Definition margin_right : float := 30.
Definition margin_top : float := 60.
Definition margin_bottom : float := 30.

(** [xScale] for the largest value [maxValue] and the viewport width:
    domain [0, maxValue], range [margin.left, width - margin.right]. *)
Definition xScale (maxValue width v : float) : float :=
  bimap 0 maxValue margin_left (width - margin_right) v.

(** d3-scale, band.js, with [paddingInner = 1], [paddingOuter = 0] and
    [align = 0.5]: the positions of [n] keys. *)
Definition point_values (n : nat) (r0 r1 : float) : list float :=
  let reverse := r1 <? r0 in
  let start := if reverse then r1 else r0 in
  let stop := if reverse then r0 else r1 in
  let step := (stop - start) / Math_max 1 (of_nat n - 1 + 0 * 2) in
  let start := start + (stop - start - step * (of_nat n - 1)) * 0.5 in
  let values := (fun i => start + step * of_nat i) <$> seq 0 n in
  if reverse then rev values else values.

(** [yScale] of the key at position [i] among [n] distinct categories:
    range [margin.top, height - margin.bottom]. *)
Definition yScale (n : nat) (height : float) (i : nat) : option float :=
  point_values n margin_top (height - margin_bottom) !! i.

(** [a < b] on doubles. *)
Definition lt (a b : float) : Prop := (a <? b) = true.

(** Two neighbouring doubles just above 1, two more a little higher,
    and the first double above 90. *)
Definition one : float := 1.
Definition after_one : float := 0x1.0000000000001p+0.
Definition above_one : float := 0x1.0000000000012p+0.
Definition after_above_one : float := 0x1.0000000000013p+0.
Definition after_90 : float := 0x1.6800000000001p+6.

(** The scales of three sample renders: the largest value 20 in a
    viewport 500 wide, a viewport 300 high, and a viewport just above
    90 high. *)
Definition xScale_20_500 (v : float) : float := xScale 20 500 v.
Definition yScale_300 (n i : nat) : option float := yScale n 300 i.
Definition yScale_after_90 (n i : nat) : option float := yScale n after_90 i.
Definition range_end_after_90 : float := after_90 - margin_bottom.

End Binary64.

(** ** Vocabulary of the properties *)

Module Spec.

Import Visual.
(** *** The label wrapper *)

(** The line fragments [wrap] leaves for a text: the texts of its
    [tspan]s, in order. *)
Definition fragments (measure : string -> Qc) (text : string) (width : Qc)
  : list string :=
  ts_text <$> wrap_text measure text width.

(** The white-space-split words of a string. *)
Definition words (s : string) : list string :=
  filter (fun w => w <> "") (JSString.split s).

Definition starts_with_space (s : string) : bool :=
  match s with
  | String c _ => JSString.is_space c
  | EmptyString => false
  end.

(** A measurement under which a line is at least as wide as each of its
    words. *)
Definition monotone (measure : string -> Qc) : Prop :=
  forall (l : list string) (w : string),
    w ∈ l -> measure w <= measure (JSString.join l).

(** Every fragment left behind for a new line holds a word. *)
Definition commits_only_words (frs : list string) : Prop :=
  Forall (fun f => words f <> []) (removelast frs).

(** A word wider than the limit is the only word of its fragment. *)
Definition wide_word_alone (measure : string -> Qc) (text : string)
    (width : Qc) : Prop :=
  forall pre w post,
    words text = pre ++ w :: post ->
    width < measure w ->
    exists fpre fpost,
      fragments measure text width = fpre ++ w :: fpost
      /\ concat (words <$> fpre) = pre
      /\ concat (words <$> fpost) = post.

(** The words of the fragments, in order, are the words of the text. *)
Definition keeps_content (measure : string -> Qc) (text : string)
    (width : Qc) : Prop :=
  concat (words <$> fragments measure text width) = words text.

(** The loop of [wrap] read front to back: popping the reversed array
    visits the words in their order. *)
Fixpoint wrap_words (measure : string -> Qc) (width : Qc)
    (ws : list string) (st : WrapState) : WrapState :=
  match ws with
  | [] => st
  | w :: ws =>
      if bool_decide (w = "") then st
      else wrap_words measure width ws (wrap_body measure width w st)
  end.

(** The state [wrap] enters its loop with: one empty [tspan]. *)
Definition wrap_start : WrapState :=
  {| finished := []; tspan := new_tspan "0em" ""; line := [] |}.

(** The loop on lines of words: the lines left behind and the current
    line. *)
Definition lines_body (measure : string -> Qc) (width : Qc)
    (st : list (list string) * list string) (w : string)
  : list (list string) * list string :=
  if bool_decide (width < measure (JSString.join (st.2 ++ [w])))
  then (st.1 ++ [st.2], [w])
  else (st.1, st.2 ++ [w]).

Definition lines (measure : string -> Qc) (width : Qc) (ws : list string)
  : list (list string) :=
  let st := foldl (lines_body measure width) ([], []) ws in
  st.1 ++ [st.2].

(** The state of the loop read as lines of words. *)
Definition reads (st : WrapState) (a : list (list string) * list string)
  : Prop :=
  line st = a.2
  /\ ts_text (tspan st) = JSString.join a.2
  /\ ts_text <$> finished st = JSString.join <$> a.1.

(** A word: not empty, and free of white space. *)
Fixpoint no_space (s : string) : bool :=
  match s with
  | EmptyString => true
  | String c s' => negb (JSString.is_space c) && no_space s'
  end.

Definition is_word (w : string) : Prop := w <> "" /\ no_space w = true.

(** *** The scales *)

(** [a < b] on scale results: both are finite numbers and ordered. *)
Definition value_lt (a b : value) : Prop :=
  match a, b with
  | Some (Num x), Some (Num y) => x < y
  | _, _ => False
  end.

(** [a <= b] on scale results: both are finite numbers and ordered. *)
Definition value_le (a b : value) : Prop :=
  match a, b with
  | Some (Num x), Some (Num y) => x <= y
  | _, _ => False
  end.

Definition finite_datum (d : Datum) : Prop :=
  is_finite (Value1 d) = true /\ is_finite (Value2 d) = true.

Definition zero_datum (d : Datum) : Prop :=
  Value1 d = Num 0 /\ Value2 d = Num 0.

(** [m] is the largest of all the values of [data]. *)
Definition is_max_value (m : Qc) (data : list Datum) : Prop :=
  Forall (fun d => forall x, Value1 d = Num x \/ Value2 d = Num x -> x <= m) data
  /\ Exists (fun d => Value1 d = Num m \/ Value2 d = Num m) data.

(** The larger of two finite values, as [Math.max] picks it. *)
Definition larger (a b : Qc) : Qc := if bool_decide (a < b) then b else a.

(** The step and the first position of a rising point scale over [n]
    keys. *)
Definition point_step (n : nat) (r0 r1 : Qc) : Qc :=
  (r1 - r0) / Qc_of_Z (Z.max 1 (Z.of_nat n - 1)).

Definition point_start (n : nat) (r0 r1 : Qc) : Qc :=
  r0 + (r1 - r0 - point_step n r0 r1 * Qc_of_Z (Z.of_nat n - 1))
       * Q2Qc (1 # 2).

(** [index] records the position of every key of the domain, and
    nothing else. *)
Definition indexed (st : list string * gmap string nat) : Prop :=
  forall c i, st.2 !! c = Some i <-> st.1 !! i = Some c.

(** *** The render *)

(** The categorical part of the first data view, when there is one. *)
Definition the_categorical (options : VisualUpdateOptions)
  : option DataViewCategorical :=
  head (dataViews options) ≫= categorical.

(** No data view, no categorical part, or no [categories] in it. *)
Definition without_categories (options : VisualUpdateOptions) : Prop :=
  match the_categorical options with
  | None => True
  | Some c => categories c = None
  end.

(** No categorical field to read: [categories] is missing as above, or
    it is an array without any column. *)
Definition lacks_categorical_field (options : VisualUpdateOptions) : Prop :=
  match the_categorical options with
  | None => True
  | Some c => categories c = None \/ categories c = Some []
  end.

(** A [categories] array without any column beside at least two measure
    columns: the guards of [update] pass and [categories[0]] is
    undefined. *)
Definition no_category_column (options : VisualUpdateOptions) : Prop :=
  exists c vs,
    the_categorical options = Some c
    /\ categories c = Some []
    /\ values c = Some vs /\ (2 <= length vs)%nat.

Definition fewer_than_two_measures (options : VisualUpdateOptions) : Prop :=
  match the_categorical options with
  | None => True
  | Some c =>
      match values c with
      | None => True
      | Some vs => (length vs < 2)%nat
      end
  end.

(** The category column is there and has no cell. *)
Definition empty_dataset (options : VisualUpdateOptions) : Prop :=
  match the_categorical options with
  | None => False
  | Some c =>
      match categories c with
      | Some (cells :: _) => cells = []
      | _ => False
      end
  end.

Definition non_positive_viewport (options : VisualUpdateOptions) : Prop :=
  width (viewport options) <= 0 \/ height (viewport options) <= 0.

(** A data view with a category column and two measure columns. *)
Definition dataView_of (cats : list string) (value1 value2 : list PrimitiveValue)
  : DataView :=
  {| categorical :=
       Some {| categories := Some [cats]; values := Some [value1; value2] |} |}.

Definition options_of (w h : Qc) (cats : list string)
    (value1 value2 : list PrimitiveValue) : VisualUpdateOptions :=
  {| viewport := {| width := w; height := h |};
     dataViews := [dataView_of cats value1 value2] |}.

(** The data [update] extracts once its guards have passed. *)
Definition dataset (options : VisualUpdateOptions) : option (list Datum) :=
  match the_categorical options with
  | None => None
  | Some c =>
      match categories c, values c with
      | Some (cats :: _), Some (value1 :: value2 :: _) =>
          Some (extract cats value1 value2)
      | _, _ => None
      end
  end.

(** The element a chain builds for one datum. *)
Definition built (tag : string)
    (build : selection.t Datum -> selection.t Datum) (d : Datum) : Element :=
  default (createElement tag)
          (head (selection.nodes (build (selection.append tag [d])))).

(** The seven kinds of primitive in the order [update] draws them: class,
    tag and chain. *)
Definition chains (measure : string -> Qc) (number_toString : number -> string)
    (data : list Datum) (width height : Qc)
  : list (string * string * (selection.t Datum -> selection.t Datum)) :=
  [("horizontalGridlines", "line", horizontalGridlines data width height);
   ("linesV1V2", "line", linesV1V2 data width height);
   ("circles1", "circle", circles1 data width height);
   ("circles2", "circle", circles2 data width height);
   ("value1Labels", "text", value1Labels number_toString data width height);
   ("value2Labels", "text", value2Labels number_toString data width height);
   ("categoryLabels", "text", categoryLabels measure data height)].

(** The children [draw] leaves on a cleared surface: the elements of
    the first chain for all the data, then those of the second, and so
    on. *)
Definition layers (measure : string -> Qc) (number_toString : number -> string)
    (data : list Datum) (width height : Qc) : list Element :=
  concat ((fun c => built c.1.2 c.2 <$> data)
            <$> chains measure number_toString data width height).

(** The attribute that carries the y-coordinate, by tag. *)
Definition y_attr (tag : string) : string :=
  if bool_decide (tag = "line") then "y1"
  else if bool_decide (tag = "circle") then "cy" else "y".

Definition tspans (e : Element) : list Tspan :=
  match content e with
  | Children l => l
  | Text _ => []
  end.

(** Fragments stacked by [dy]: the first stays on the baseline of the
    label, each later one is a line height below the one before it. *)
Definition stacked (ts : list Tspan) : Prop :=
  match ts with
  | [] => False
  | t :: rest =>
      ts_attrs t !! "dy" = Some (AStr "0em")
      /\ Forall (fun t => ts_attrs t !! "dy" = Some (AStr lineHeight)) rest
  end.

(** The x-coordinate every fragment is given. *)
Definition fragment_x (t : Tspan) : option AttrValue := ts_attrs t !! "x".

(** *** More vocabulary: lines that fit, breaks, finite and
    non-negative data *)

(** A line fits when it holds at most one word or measures no more than
    the width. *)
Definition line_fits (measure : string -> Qc) (width : Qc) (l : list string)
  : Prop :=
  (length l <= 1)%nat \/ measure (JSString.join l) <= width.

Definition fragment_fits (measure : string -> Qc) (width : Qc) (f : string)
  : Prop :=
  (length (words f) <= 1)%nat \/ measure f <= width.

(** The break between the lines [a] and [b] was needed: [a] with the
    first word of [b] measures more than the width. *)
Definition break_needed (measure : string -> Qc) (width : Qc)
    (a b : list string) : Prop :=
  exists w rest, b = w :: rest /\ width < measure (JSString.join (a ++ [w])).

(** Both values of the point are finite. *)
Definition finiteb (d : Datum) : bool :=
  is_finite (Value1 d) && is_finite (Value2 d).

(** *** Sample surface and inputs *)

(** Ten pixels per code unit. *)
Definition measure10 (s : string) : Qc :=
  Qc_of_Z (10 * Z.of_nat (String.length s)).

(** A measurement that is not monotone: the word [wide] alone is wider
    than any line. *)
Definition measure_odd (s : string) : Qc :=
  if bool_decide (s = "wide") then Qc_of_Z 100 else Qc_of_Z 10.

(** The text of a number on the sample surface: [NaN], or the integer
    part in decimal. *)
Definition sample_toString (x : number) : string :=
  match x with
  | NaN => "NaN"
  | Num q => pretty (Qnum (this q) / Zpos (Qden (this q)))%Z
  end.

Definition blank : Svg := {| svg_attrs := ∅; svg_children := [] |}.

(** An integer as a finite number, and as a cell of a measure column. *)
Definition int (z : Z) : Qc := Q2Qc (inject_Z z).

Definition n (z : Z) : PrimitiveValue := PVNumber (Num (int z)).

Definition sample_update (w h : Z) (cats : list string)
    (value1 value2 : list PrimitiveValue) : Svg * Completion :=
  update measure10 sample_toString blank
    (options_of (Qc_of_Z w) (Qc_of_Z h) cats value1 value2).

(** Options whose [categories] array has no column, beside two measure
    columns. *)
Definition options_without_column (w h : Qc) : VisualUpdateOptions :=
  {| viewport := {| width := w; height := h |};
     dataViews :=
       [{| categorical :=
             Some {| categories := Some []; values := Some [[]; []] |} |}] |}.

Definition zeros : list Datum := [mkDatum "A" (Num 0) (Num 0)].

Definition negatives : list Datum :=
  [mkDatum "A" (Num (int (-10))) (Num (int (-5)))].

Definition two_points : list Datum :=
  [mkDatum "A" (Num (int 10)) (Num (int 20));
   mkDatum "B" (Num 0) (Num (int 5))].

End Spec.

(** * Properties *)

Import Visual Spec.

(** ** Strings: [split] and [join] *)

Lemma app_cons (c : ascii) (a b : string) :
  String c a +:+ b = String c (a +:+ b).
Proof. reflexivity. Qed.

Lemma app_empty_l (a : string) : "" +:+ a = a.
Proof. reflexivity. Qed.

Lemma no_space_app (a b : string) :
  no_space (a +:+ b) = no_space a && no_space b.
Proof.
  induction a as [|c a IH]; [done|].
  rewrite app_cons. simpl. rewrite IH. by rewrite andb_assoc.
Qed.

Lemma app_empty_r (a : string) : a +:+ "" = a.
Proof. induction a as [|c a IH]; [done|]. rewrite app_cons. by f_equal. Qed.

Lemma app_assoc_s (a b c : string) : (a +:+ b) +:+ c = a +:+ (b +:+ c).
Proof. induction a as [|x a IH]; [done|]. rewrite !app_cons. by f_equal. Qed.

Lemma app_nonempty_r (a : string) (c : ascii) : a +:+ String c "" <> "".
Proof. destruct a; discriminate. Qed.

Lemma split_from_shape (s : string) :
  forall in_run cur,
    no_space cur = true ->
    (in_run = true -> cur = "") ->
    (in_run = false -> cur <> "") ->
    exists ws, Forall is_word ws
      /\ (JSString.split_from in_run cur s = ws
          \/ JSString.split_from in_run cur s = ws ++ [""]).
Proof.
  induction s as [|c s IH]; intros in_run cur Hcur Hrun Hword; simpl.
  - destruct in_run.
    + exists []. split; [constructor|]. right. by rewrite Hrun.
    + exists [cur]. split; [|by left].
      constructor; [|constructor]. split; auto.
  - destruct (JSString.is_space c) eqn:Hc.
    + destruct in_run.
      * apply IH; auto.
      * destruct (IH true "") as (ws & Hws & Hsplit); [done|done|done|].
        exists (cur :: ws). split.
        { constructor; [split; auto|done]. }
        destruct Hsplit as [-> | ->]; [by left|by right].
    + apply IH.
      * rewrite no_space_app, Hcur. simpl. by rewrite Hc.
      * done.
      * intros _. apply app_nonempty_r.
Qed.

Lemma split_shape (text : string) :
  starts_with_space text = false ->
  exists ws, Forall is_word ws
    /\ (JSString.split text = ws \/ JSString.split text = ws ++ [""]).
Proof.
  intros Hstart. unfold JSString.split. destruct text as [|c s].
  - exists []. split; [constructor|by right].
  - simpl in *. rewrite Hstart.
    apply split_from_shape; [simpl; by rewrite Hstart|done|done].
Qed.

Lemma filter_words (ws : list string) :
  Forall is_word ws -> filter (fun w => w <> "") ws = ws.
Proof.
  induction 1 as [|w ws [Hw _] _ IH]; [done|].
  rewrite filter_cons_True by done. by rewrite IH.
Qed.

Lemma words_shape (text : string) (ws : list string) :
  Forall is_word ws ->
  JSString.split text = ws \/ JSString.split text = ws ++ [""] ->
  words text = ws.
Proof.
  intros Hws [H | H]; unfold words; rewrite H.
  - by apply filter_words.
  - rewrite filter_app, filter_words by done.
    rewrite filter_cons_False by (intros ?; done). by rewrite filter_nil, app_nil_r.
Qed.

Lemma split_from_word (w : string) :
  forall cur rest, no_space w = true ->
    JSString.split_from false cur (w +:+ rest)
    = JSString.split_from false (cur +:+ w) rest.
Proof.
  induction w as [|c w IH]; intros cur rest Hw.
  - by rewrite app_empty_r, app_empty_l.
  - rewrite app_cons. simpl. simpl in Hw. apply andb_true_iff in Hw as [Hc Hw].
    apply negb_true_iff in Hc. rewrite Hc.
    rewrite IH by done. by rewrite app_assoc_s.
Qed.

Lemma split_from_run (s : string) :
  starts_with_space s = false -> s <> "" ->
  JSString.split_from true "" s = JSString.split_from false "" s.
Proof.
  destruct s as [|c s]; [done|]. simpl. by intros ->.
Qed.

Lemma join_cons (w w' : string) (l : list string) :
  JSString.join (w :: w' :: l) = w +:+ " " +:+ JSString.join (w' :: l).
Proof. reflexivity. Qed.

Lemma join_starts (w : string) (l : list string) :
  is_word w ->
  starts_with_space (JSString.join (w :: l)) = false
  /\ JSString.join (w :: l) <> "".
Proof.
  intros [Hne Hsp]. destruct w as [|c w]; [done|].
  simpl in Hsp. apply andb_true_iff in Hsp as [Hc _].
  apply negb_true_iff in Hc.
  destruct l; [simpl; by rewrite Hc|].
  rewrite join_cons, app_cons. simpl. by rewrite Hc.
Qed.

Lemma split_from_blank (cur rest : string) :
  JSString.split_from false cur (" " +:+ rest)
  = cur :: JSString.split_from true "" rest.
Proof. reflexivity. Qed.

Lemma split_from_join (l : list string) :
  forall cur w, Forall is_word (w :: l) -> no_space cur = true ->
    JSString.split_from false cur (JSString.join (w :: l)) = (cur +:+ w) :: l.
Proof.
  induction l as [|w' l IH]; intros cur w Hall Hcur.
  - change (JSString.join [w]) with w.
    inversion_clear Hall as [|? ? [_ Hw] _].
    rewrite <- (app_empty_r w) at 1.
    rewrite split_from_word by done. done.
  - inversion_clear Hall as [|? ? [_ Hw] Hl].
    rewrite join_cons, split_from_word, split_from_blank by done.
    assert (Hw' : is_word w') by (by inversion Hl).
    destruct (join_starts w' l Hw') as [Hs Hne].
    rewrite split_from_run by done.
    by rewrite IH.
Qed.

Lemma words_join (l : list string) :
  Forall is_word l -> words (JSString.join l) = l.
Proof.
  intros Hl. unfold words, JSString.split. destruct l as [|w l].
  - simpl. rewrite filter_cons_False by (intros ?; done). done.
  - rewrite split_from_join by done. simpl. by apply filter_words.
Qed.
(** ** The loop of [wrap] *)

Section WrapTheory.
Variable measure : string -> Qc.
Variable width : Qc.

Lemma pop_snoc {A : Type} (l : list A) (x : A) :
  JSString.pop (l ++ [x]) = Some (x, l).
Proof.
  unfold JSString.pop. rewrite last_snoc. by rewrite removelast_last.
Qed.

Lemma while_pop_rev (ws : list string) :
  forall fuel st, (length ws <= fuel)%nat ->
    while_pop measure fuel width (rev ws) st = wrap_words measure width ws st.
Proof.
  induction ws as [|w ws IH]; intros fuel st Hfuel.
  - destruct fuel; reflexivity.
  - destruct fuel as [|fuel]; [simpl in Hfuel; lia|].
    simpl. rewrite pop_snoc. case_bool_decide; [done|].
    apply IH. simpl in Hfuel. lia.
Qed.

Lemma wrap_text_words (text : string) :
  wrap_text measure text width =
  finished (wrap_words measure width (JSString.split text) wrap_start)
  ++ [tspan (wrap_words measure width (JSString.split text) wrap_start)].
Proof.
  unfold wrap_text. rewrite while_pop_rev; [done|]. by rewrite length_rev.
Qed.

Lemma wrap_words_app (ws tl : list string) :
  forall st, Forall is_word ws -> tl = [] \/ tl = [""] ->
    wrap_words measure width (ws ++ tl) st
    = foldl (fun st w => wrap_body measure width w st) st ws.
Proof.
  induction ws as [|w ws IH]; intros st Hws Htl.
  - destruct Htl as [-> | ->]; reflexivity.
  - inversion_clear Hws as [|? ? [Hw _] Hrest].
    simpl. rewrite bool_decide_eq_false_2 by done. by apply IH.
Qed.

Lemma reads_body st a w :
  reads st a ->
  reads (wrap_body measure width w st) (lines_body measure width a w).
Proof.
  intros (Hl & Ht & Hf). unfold wrap_body, lines_body, JSString.push.
  simpl. rewrite Hl. case_bool_decide.
  - repeat split; simpl.
    rewrite fmap_app, Hf, fmap_app. simpl. by rewrite removelast_last.
  - repeat split; simpl.  done.
Qed.

Lemma reads_foldl ws :
  forall st a, reads st a ->
    reads (foldl (fun st w => wrap_body measure width w st) st ws)
          (foldl (lines_body measure width) a ws).
Proof.
  induction ws as [|w ws IH]; intros st a H; [done|].
  simpl. apply IH. by apply reads_body.
Qed.

Lemma fragments_lines (text : string) :
  starts_with_space text = false ->
  fragments measure text width
  = JSString.join <$> lines measure width (words text).
Proof.
  intros Hstart. destruct (split_shape text Hstart) as (ws & Hws & Hsplit).
  rewrite (words_shape text ws) by done.
  unfold fragments. rewrite wrap_text_words.
  assert (Hrun : wrap_words measure width (JSString.split text) wrap_start
                 = foldl (fun st w => wrap_body measure width w st) wrap_start ws).
  { destruct Hsplit as [-> | ->].
    - rewrite <- (app_nil_r ws) at 1. apply wrap_words_app; auto.
    - apply wrap_words_app; auto. }
  rewrite Hrun.
  destruct (reads_foldl ws wrap_start ([], [])) as (Hl & Ht & Hf); [done|].
  unfold lines. rewrite !fmap_app. simpl. by rewrite Hf, Ht.
Qed.

(** From a state whose current line is not empty, the loop appends
    non-empty lines only, and they hold the words in order. *)
Lemma lines_from ws :
  forall ls l, l <> [] ->
    exists M,
      (foldl (lines_body measure width) (ls, l) ws).1
        ++ [(foldl (lines_body measure width) (ls, l) ws).2] = ls ++ M
      /\ Forall (fun m => m <> []) M
      /\ concat M = l ++ ws.
Proof.
  induction ws as [|w ws IH]; intros ls l Hl.
  - exists [l]. simpl. split; [done|]. split; [by repeat constructor|].
    by rewrite !app_nil_r.
  - simpl. unfold lines_body at 2 4. simpl. case_bool_decide.
    + destruct (IH (ls ++ [l]) [w]) as (M & HM & Hne & Hcat); [done|].
      exists (l :: M). rewrite HM. split; [by rewrite <- app_assoc|].
      split; [by constructor|]. simpl. by rewrite Hcat.
    + destruct (IH ls (l ++ [w])) as (M & HM & Hne & Hcat).
      { by destruct l. }
      exists M. split; [done|]. split; [done|]. by rewrite Hcat, <- app_assoc.
Qed.

Lemma lines_nil : lines measure width [] = [[]].
Proof. reflexivity. Qed.

Lemma lines_cons w ws :
  exists M, Forall (fun m => m <> []) M /\ concat M = w :: ws
    /\ lines measure width (w :: ws)
       = if bool_decide (width < measure w) then [] :: M else M.
Proof.
  unfold lines. simpl. unfold lines_body at 2 4. simpl.
  change (JSString.join [w]) with w. case_bool_decide.
  - destruct (lines_from ws [[]] [w]) as (M & HM & Hne & Hcat); [done|].
    exists M. by rewrite HM.
  - destruct (lines_from ws [] [w]) as (M & HM & Hne & Hcat); [done|].
    exists M. by rewrite HM.
Qed.

Lemma lines_concat ws : concat (lines measure width ws) = ws.
Proof.
  destruct ws as [|w ws]; [done|].
  destruct (lines_cons w ws) as (M & _ & Hcat & ->).
  by case_bool_decide.
Qed.

Lemma words_lines (L : list (list string)) :
  Forall (Forall is_word) L ->
  words <$> (JSString.join <$> L) = L.
Proof.
  induction 1 as [|l L Hl _ IH]; [done|].
  simpl. rewrite words_join by done. by f_equal.
Qed.

Lemma lines_state_concat ws :
  forall ls l,
    concat (foldl (lines_body measure width) (ls, l) ws).1
      ++ (foldl (lines_body measure width) (ls, l) ws).2
    = concat ls ++ l ++ ws.
Proof.
  induction ws as [|w ws IH]; intros ls l.
  - simpl. by rewrite app_nil_r.
  - simpl. unfold lines_body at 2 4. simpl. case_bool_decide; rewrite IH.
    + rewrite concat_app. simpl. by rewrite app_nil_r, <- !app_assoc.
    + by rewrite <- !app_assoc.
Qed.

Lemma lines_wide pre w post :
  monotone measure -> width < measure w ->
  exists Lpre Lpost,
    lines measure width (pre ++ w :: post) = Lpre ++ [w] :: Lpost
    /\ concat Lpre = pre /\ concat Lpost = post.
Proof.
  intros Hmono Hwide. unfold lines. rewrite foldl_app.
  pose proof (lines_state_concat pre [] []) as Hpre. simpl in Hpre.
  destruct (foldl (lines_body measure width) ([], []) pre) as [ls1 l1].
  simpl in Hpre. simpl. unfold lines_body at 2 4. simpl.
  rewrite bool_decide_eq_true_2; last first.
  { eapply Qclt_le_trans; [exact Hwide|]. apply Hmono. set_solver. }
  destruct post as [|x post].
  - simpl. exists (ls1 ++ [l1]), []. split; [by rewrite <- app_assoc|].
    split; [|done]. rewrite concat_app. simpl. by rewrite app_nil_r.
  - simpl. unfold lines_body at 2 4. simpl.
    rewrite bool_decide_eq_true_2; last first.
    { eapply Qclt_le_trans; [exact Hwide|]. apply Hmono. set_solver. }
    destruct (lines_from post ((ls1 ++ [l1]) ++ [[w]]) [x])
      as (M & HM & _ & Hcat); [done|].
    rewrite HM. exists (ls1 ++ [l1]), M.
    split; [by rewrite <- !app_assoc|].
    split; [|done]. rewrite concat_app. simpl. by rewrite app_nil_r.
Qed.

Lemma words_text_are_words (text : string) :
  starts_with_space text = false -> Forall is_word (words text).
Proof.
  intros Hstart. destruct (split_shape text Hstart) as (ws & Hws & Hsplit).
  by rewrite (words_shape text ws).
Qed.

Lemma lines_are_words ws :
  Forall is_word ws -> Forall (Forall is_word) (lines measure width ws).
Proof. intros Hws. apply Forall_concat. by rewrite lines_concat. Qed.

Lemma wrap_keeps (text : string) :
  starts_with_space text = false -> keeps_content measure text width.
Proof.
  intros Hstart. unfold keeps_content. rewrite fragments_lines by done.
  rewrite words_lines, lines_concat; [done|].
  apply lines_are_words. by apply words_text_are_words.
Qed.

Lemma wrap_later_fragments (text : string) :
  starts_with_space text = false ->
  Forall (fun f => words f <> []) (tail (fragments measure text width)).
Proof.
  intros Hstart. rewrite fragments_lines by done.
  pose proof (words_text_are_words text Hstart) as Hws.
  pose proof (lines_are_words _ Hws) as HL.
  destruct (words text) as [|w ws]; [rewrite lines_nil; constructor|].
  destruct (lines_cons w ws) as (M & Hne & _ & HM). rewrite HM in HL |- *.
  assert (HM' : Forall (Forall is_word) M).
  { case_bool_decide; [by inversion HL|done]. }
  assert (Hgoal : Forall (fun f => words f <> []) (JSString.join <$> M)).
  { apply Forall_fmap. clear HM HL.
    induction Hne as [|m M Hm _ IH]; [constructor|].
    inversion_clear HM' as [|? ? Hwm HwM]. constructor; [|by apply IH].
    simpl. by rewrite words_join. }
  case_bool_decide; [done|].
  destruct M; [constructor|]. simpl. by inversion Hgoal.
Qed.

Lemma wrap_first_fragment (text : string) :
  starts_with_space text = false ->
  words (hd "" (fragments measure text width)) = []
  <-> (words text = []
       \/ exists w rest, words text = w :: rest /\ width < measure w).
Proof.
  intros Hstart. rewrite fragments_lines by done.
  pose proof (words_text_are_words text Hstart) as Hws.
  pose proof (lines_are_words _ Hws) as HL.
  destruct (words text) as [|w ws].
  { rewrite lines_nil. split; [by left|intros _; reflexivity]. }
  destruct (lines_cons w ws) as (M & Hne & Hcat & HM). rewrite HM in HL |- *.
  case_bool_decide as Hw.
  - simpl. split; [|done]. intros _. right. by exists w, ws.
  - destruct M as [|m M]; [done|]. simpl.
    inversion_clear Hne as [|? ? Hm _]. inversion_clear HL as [|? ? Hwm _].
    rewrite words_join by done. split; [done|].
    intros [|(w' & rest & Heq & Hwide)]; [done|]. by simplify_eq.
Qed.

Lemma wrap_wide (text : string) :
  starts_with_space text = false -> monotone measure ->
  wide_word_alone measure text width.
Proof.
  intros Hstart Hmono pre w post Hsplit Hwide.
  rewrite fragments_lines by done.
  pose proof (words_text_are_words text Hstart) as Hws.
  pose proof (lines_are_words _ Hws) as HL.
  rewrite Hsplit in HL |- *.
  destruct (lines_wide pre w post Hmono Hwide) as (Lpre & Lpost & HLs & Hp & Hq).
  rewrite HLs in HL |- *. apply Forall_app in HL as [HLpre HLpost].
  inversion_clear HLpost as [|? ? _ HLpost'].
  exists (JSString.join <$> Lpre), (JSString.join <$> Lpost).
  rewrite fmap_app. simpl. change (JSString.join [w]) with w.
  split; [done|]. by rewrite !words_lines.
Qed.

End WrapTheory.

(** ** Numbers *)

Lemma Qc_this_inj (a b : Qc) : this a = this b -> a = b.
Proof. intros H. apply Qc_is_canon. by rewrite H. Qed.

Lemma Qc_half : Q2Qc (1 # 2) = 1 / 2.
Proof. by apply Qc_this_inj. Qed.

Lemma Qc_two_neq_0 : (2 : Qc) <> 0.
Proof. intros H. by apply (f_equal this) in H. Qed.

Lemma Qc_of_Z_pos (z : Z) : (0 < z)%Z -> 0 < Qc_of_Z z.
Proof. intros H. rewrite <- Z2Qc_inj_0. by apply (proj1 (Z2Qc_inj_lt 0 z)). Qed.

Lemma Qc_pos_neq_0 (x : Qc) : 0 < x -> x <> 0.
Proof. intros H ->. by apply (Qclt_not_eq 0 0). Qed.

(** *** [d3.max] *)

Section Max.
Context {A : Type} (valueof : A -> number) (q : A -> Qc).

Lemma max_step_first (x : Qc) : d3.max_step None (Num x) = Some (Num x).
Proof. reflexivity. Qed.

Lemma max_step_next (m x : Qc) :
  d3.max_step (Some (Num m)) (Num x)
  = Some (Num (if bool_decide (m < x) then x else m)).
Proof. unfold d3.max_step. simpl. by case_bool_decide. Qed.

Lemma max_step_NaN (m : value) : d3.max_step m NaN = m.
Proof. unfold d3.max_step. destruct m as [[|]|]; reflexivity. Qed.

Lemma max_from (values : list A) :
  forall m0,
    Forall (fun d => valueof d = Num (q d)) values ->
    exists m,
      foldl (fun m d => d3.max_step m (valueof d)) (Some (Num m0)) values
      = Some (Num m)
      /\ m0 <= m
      /\ Forall (fun d => q d <= m) values
      /\ (m = m0 \/ Exists (fun d => q d = m) values).
Proof.
  induction values as [|d values IH]; intros m0 Hfin.
  - exists m0. split; [done|]. split; [apply Qcle_refl|]. split; [constructor|by left].
  - inversion_clear Hfin as [|? ? Hd Hrest]. simpl. rewrite Hd, max_step_next.
    destruct (IH (if bool_decide (m0 < q d) then q d else m0) Hrest)
      as (m & Hm & Hle & Hall & Hex).
    exists m. split; [done|]. case_bool_decide as Hlt.
    + split; [eapply Qcle_trans; [apply Qclt_le_weak, Hlt|done]|].
      split; [by constructor|]. right. destruct Hex as [-> | Hex].
      * by constructor.
      * by constructor 2.
    + split; [done|]. split.
      * constructor; [|done]. eapply Qcle_trans; [|exact Hle]. by apply Qcnot_lt_le.
      * destruct Hex as [-> | Hex]; [by left|right; by constructor 2].
Qed.

Lemma max_finite (values : list A) :
  values <> [] ->
  Forall (fun d => valueof d = Num (q d)) values ->
  exists m,
    d3.max values valueof = Some (Num m)
    /\ Forall (fun d => q d <= m) values
    /\ Exists (fun d => q d = m) values.
Proof.
  intros Hne Hfin. destruct values as [|d values]; [done|].
  inversion_clear Hfin as [|? ? Hd Hrest].
  unfold d3.max. simpl. rewrite Hd, max_step_first.
  destruct (max_from values (q d) Hrest) as (m & Hm & Hle & Hall & Hex).
  exists m. split; [done|]. split; [by constructor|].
  destruct Hex as [-> | Hex]; [by constructor|by constructor 2].
Qed.

End Max.

Lemma maxValue_finite (data : list Datum) :
  data <> [] -> Forall finite_datum data ->
  exists m, maxValue data = Some (Num m) /\ is_max_value m data.
Proof.
  intros Hne Hfin.
  set (q := fun d => match Value1 d, Value2 d with
                     | Num a, Num b => larger a b
                     | _, _ => 0
                     end).
  destruct (max_finite (fun d => Math_max (Value1 d) (Value2 d)) q data Hne)
    as (m & Hm & Hall & Hex).
  { eapply Forall_impl; [exact Hfin|]. intros d [H1 H2]. unfold q.
    destruct (Value1 d), (Value2 d); try done. }
  exists m. split; [done|]. split.
  - rewrite Forall_forall in Hall, Hfin |- *. intros d Hd x Hx.
    specialize (Hall d Hd). destruct (Hfin d Hd) as [H1 H2]. unfold q in Hall.
    destruct (Value1 d) as [|a], (Value2 d) as [|b]; try done.
    unfold larger in Hall. case_bool_decide as Hab.
    + destruct Hx as [[= ->] | [= ->]]; [|done].
      eapply Qcle_trans; [apply Qclt_le_weak, Hab|done].
    + destruct Hx as [[= ->] | [= ->]]; [done|].
      eapply Qcle_trans; [|exact Hall]. by apply Qcnot_lt_le.
  - rewrite Exists_exists in Hex |- *. destruct Hex as (d & Hd & Hq).
    exists d. split; [done|]. rewrite Forall_forall in Hfin.
    destruct (Hfin d Hd) as [H1 H2]. unfold q in Hq.
    destruct (Value1 d) as [|a], (Value2 d) as [|b]; try done.
    unfold larger in Hq. case_bool_decide; subst; auto.
Qed.

Lemma maxValue_zeros (data : list Datum) :
  data <> [] -> Forall zero_datum data -> maxValue data = Some (Num 0).
Proof.
  intros Hne Hz. destruct data as [|d data]; [done|].
  inversion_clear Hz as [|? ? [H1 H2] Hrest].
  unfold maxValue, d3.max. simpl. rewrite H1, H2.
  change (d3.max_step None (Math_max (Num 0) (Num 0))) with (Some (Num 0)).
  clear Hne. induction Hrest as [|d' data' [H1' H2'] _ IH]; [done|].
  simpl. rewrite H1', H2'.
  change (d3.max_step (Some (Num 0)) (Math_max (Num 0) (Num 0)))
    with (Some (Num 0)).
  exact IH.
Qed.

(** *** [d3.scaleLinear] *)

Section Linear.
Variables r0 r1 : Qc.

(** A rising domain [0, m]: the usual linear map. *)
Lemma scaleLinear_rising (m v : Qc) :
  0 < m ->
  d3.scaleLinear (Some (Num 0)) (Some (Num m)) r0 r1 (Num v)
  = Some (Num (r0 + (r1 - r0) * (v / m))).
Proof.
  intros Hm. unfold d3.scaleLinear, d3.bimap. simpl.
  rewrite bool_decide_eq_false_2 by (by apply Qcle_not_lt, Qclt_le_weak).
  unfold d3.normalize, d3.interpolateNumber. simpl.
  assert (Hne : m <> 0) by (intros ->; by apply (Qclt_not_eq 0 0)).
  assert (Hne' : m - 0 <> 0) by (intros H; apply Hne; rewrite <- H; ring).
  rewrite bool_decide_eq_false_2 by done.
  simpl. do 2 f_equal. field; repeat split; assumption.
Qed.

(** A falling domain [0, m], m < 0: domain and range are both swapped. *)
Lemma scaleLinear_falling (m v : Qc) :
  m < 0 ->
  d3.scaleLinear (Some (Num 0)) (Some (Num m)) r0 r1 (Num v)
  = Some (Num (r0 + (r1 - r0) * (v / m))).
Proof.
  intros Hm. unfold d3.scaleLinear, d3.bimap. simpl.
  rewrite bool_decide_eq_true_2 by done.
  unfold d3.normalize, d3.interpolateNumber. simpl.
  assert (Hne : m <> 0) by (intros ->; by apply (Qclt_not_eq 0 0)).
  assert (Hne' : 0 - m <> 0).
  { intros H. apply Hne. replace m with (- (0 - m)) by ring. rewrite H. ring. }
  rewrite bool_decide_eq_false_2 by done.
  simpl. do 2 f_equal. field; repeat split; try assumption.
  intros H. apply Hne'. by replace (0 - m) with (- m) by ring.
Qed.

(** The domain [0, 0]: every finite value goes to the middle of the
    range. *)
Lemma scaleLinear_flat (v : Qc) :
  d3.scaleLinear (Some (Num 0)) (Some (Num 0)) r0 r1 (Num v)
  = Some (Num ((r0 + r1) / 2)).
Proof.
  unfold d3.scaleLinear, d3.bimap. simpl.
  change (d3.normalize (Num 0) (Num 0) (Num v)) with (Num (Q2Qc (1 # 2))).
  unfold d3.interpolateNumber. simpl. rewrite Qc_half.
  do 2 f_equal. field. apply Qc_two_neq_0.
Qed.

End Linear.

(** *** The ordinal domain *)

Lemma indexed_empty : indexed ([], ∅).
Proof. intros c i. simpl. rewrite lookup_empty, lookup_nil. done. Qed.

Lemma indexed_NoDup st : indexed st -> NoDup st.1.
Proof.
  intros H. apply NoDup_alt. intros i j c Hi Hj.
  apply H in Hi, Hj. congruence.
Qed.

Lemma ordinal_push_fresh st v :
  indexed st -> v ∉ st.1 ->
  d3.ordinal_push st v = (st.1 ++ [v], <[v := length st.1]> st.2)
  /\ indexed (d3.ordinal_push st v).
Proof.
  intros Hst Hv. unfold d3.ordinal_push.
  destruct (st.2 !! v) as [i|] eqn:Hi.
  { apply Hst in Hi. exfalso. apply Hv. by eapply list_elem_of_lookup_2. }
  split; [done|]. intros c i. simpl. destruct (decide (v = c)) as [->|Hne].
  - rewrite lookup_insert_eq. split.
    + intros [= <-]. by rewrite lookup_app_r, Nat.sub_diag by lia.
    + intros Hc. f_equal. destruct (decide (i < length st.1)%nat) as [Hlt|Hge].
      * rewrite lookup_app_l in Hc by done. exfalso. apply Hv.
        by eapply list_elem_of_lookup_2.
      * apply lookup_lt_Some in Hc. rewrite length_app in Hc. simpl in Hc. lia.
  - rewrite lookup_insert_ne by done. rewrite (Hst c i). split.
    + intros Hc. by apply lookup_app_l_Some.
    + intros Hc. destruct (decide (i < length st.1)%nat) as [Hlt|Hge].
      * by rewrite lookup_app_l in Hc.
      * rewrite lookup_app_r in Hc by lia.
        apply list_lookup_singleton_Some in Hc as [_ ?]. done.
Qed.

Lemma ordinal_push_known st v :
  indexed st -> v ∈ st.1 -> d3.ordinal_push st v = st.
Proof.
  intros Hst Hv. unfold d3.ordinal_push.
  apply list_elem_of_lookup_1 in Hv as [i Hi]. apply Hst in Hi. by rewrite Hi.
Qed.

Lemma ordinal_foldl_indexed vs :
  forall st, indexed st -> indexed (foldl d3.ordinal_push st vs).
Proof.
  induction vs as [|v vs IH]; intros st Hst; [done|].
  simpl. apply IH. destruct (decide (v ∈ st.1)) as [Hin|Hout].
  - by rewrite ordinal_push_known.
  - by apply ordinal_push_fresh.
Qed.

Lemma ordinal_foldl_NoDup vs :
  forall st, indexed st -> NoDup (st.1 ++ vs) ->
    (foldl d3.ordinal_push st vs).1 = st.1 ++ vs.
Proof.
  induction vs as [|v vs IH]; intros st Hst Hnd.
  - simpl. by rewrite app_nil_r.
  - simpl. assert (Hv : v ∉ st.1).
    { apply NoDup_app in Hnd as (_ & Hdisj & _). intros Hin.
      apply (Hdisj v Hin). by left. }
    destruct (ordinal_push_fresh st v Hst Hv) as [Heq Hind].
    rewrite IH; rewrite ?Heq; simpl; [by rewrite <- app_assoc| by rewrite <- Heq |].
    by rewrite <- app_assoc.
Qed.

Lemma ordinal_domain_NoDup vs :
  NoDup vs ->
  exists index, d3.ordinal_domain vs = (vs, index)
    /\ forall c i, index !! c = Some i <-> vs !! i = Some c.
Proof.
  intros Hnd. unfold d3.ordinal_domain.
  pose proof (ordinal_foldl_indexed vs ([], ∅) indexed_empty) as Hind.
  pose proof (ordinal_foldl_NoDup vs ([], ∅) indexed_empty Hnd) as Hdom.
  destruct (foldl d3.ordinal_push ([], ∅) vs) as [dom index].
  simpl in Hdom. subst dom. exists index. split; [done|]. exact Hind.
Qed.

(** Every key handed to the domain setter is found in the index. *)
Lemma ordinal_foldl_mem vs :
  forall st, indexed st ->
    forall c, c ∈ st.1 \/ c ∈ vs -> c ∈ (foldl d3.ordinal_push st vs).1.
Proof.
  induction vs as [|v vs IH]; intros st Hst c Hc.
  - destruct Hc as [Hc|Hc]; [done|by apply elem_of_nil in Hc].
  - simpl. destruct (decide (v ∈ st.1)) as [Hin|Hout].
    + rewrite ordinal_push_known by done. apply IH; [done|].
      destruct Hc as [Hc|Hc]; [by left|].
      apply elem_of_cons in Hc as [->|Hc]; [by left|by right].
    + destruct (ordinal_push_fresh st v Hst Hout) as [Heq Hind].
      apply IH; [done|]. rewrite Heq. simpl.
      destruct Hc as [Hc|Hc]; [left; set_solver|].
      apply elem_of_cons in Hc as [->|Hc]; [left; set_solver|by right].
Qed.

Lemma ordinal_domain_hit vs c :
  c ∈ vs ->
  exists i, (d3.ordinal_domain vs).2 !! c = Some i
    /\ (i < length (d3.ordinal_domain vs).1)%nat.
Proof.
  intros Hc. unfold d3.ordinal_domain.
  pose proof (ordinal_foldl_indexed vs ([], ∅) indexed_empty) as Hind.
  pose proof (ordinal_foldl_mem vs ([], ∅) indexed_empty c (or_intror Hc)) as Hm.
  apply list_elem_of_lookup_1 in Hm as [i Hi]. exists i.
  split; [by apply Hind|]. by eapply lookup_lt_Some.
Qed.

(** *** [d3.scalePoint] *)

Section Point.
Variables r0 r1 : Qc.
Hypothesis Hrange : r0 <= r1.

Lemma point_values_rising (n : nat) :
  d3.point_values n r0 r1
  = (fun i => point_start n r0 r1 + point_step n r0 r1 * Qc_of_Z (Z.of_nat i))
      <$> seq 0 n.
Proof.
  unfold d3.point_values.
  rewrite bool_decide_eq_false_2 by (by apply Qcle_not_lt).
  unfold point_start, point_step, d3.paddingInner, d3.paddingOuter, d3.align.
  by rewrite Z.mul_0_l, Z.add_0_r.
Qed.

Lemma point_values_lookup (n i : nat) :
  (i < n)%nat ->
  d3.point_values n r0 r1 !! i
  = Some (point_start n r0 r1 + point_step n r0 r1 * Qc_of_Z (Z.of_nat i)).
Proof.
  intros Hi. rewrite point_values_rising, list_lookup_fmap.
  by rewrite lookup_seq_lt.
Qed.

Lemma point_values_length (n : nat) : length (d3.point_values n r0 r1) = n.
Proof. by rewrite point_values_rising, length_fmap, length_seq. Qed.

Lemma point_step_nonneg (n : nat) : 0 <= point_step n r0 r1.
Proof.
  unfold point_step, Qcdiv. apply Qcmult_nonneg_nonneg.
  - by apply Qcle_minus_iff in Hrange.
  - apply Qclt_le_weak, Qcinv_pos, Qc_of_Z_pos. lia.
Qed.

Lemma scalePoint_NoDup (vs : list string) (i : nat) (c : string) :
  NoDup vs -> vs !! i = Some c ->
  d3.scalePoint vs r0 r1 c
  = Some (Num (point_start (length vs) r0 r1
               + point_step (length vs) r0 r1 * Qc_of_Z (Z.of_nat i))).
Proof.
  intros Hnd Hi. unfold d3.scalePoint.
  destruct (ordinal_domain_NoDup vs Hnd) as (index & -> & Hindex).
  apply Hindex in Hi as Hidx. rewrite Hidx.
  apply lookup_lt_Some in Hi.
  rewrite point_values_length, Nat.mod_small by done.
  by rewrite point_values_lookup.
Qed.

End Point.

(** ** The surface after [draw] *)

Lemma attrs_set_attr_eq name v e :
  attrs (selection.set_attr name v e) !! name = v.
Proof.
  destruct v; simpl; [apply lookup_insert_eq|apply lookup_delete_eq].
Qed.

Lemma attrs_set_attr_ne name name' v e :
  name <> name' ->
  attrs (selection.set_attr name v e) !! name' = attrs e !! name'.
Proof.
  intros Hne. destruct v; simpl;
    [by apply lookup_insert_ne|by apply lookup_delete_ne].
Qed.

Lemma enter_fresh {D : Type} (children : list Element) (cls : string)
    (data : list D) :
  Forall (fun e => selection.has_class cls e = false) children ->
  selection.enter children cls data = data.
Proof.
  intros H. unfold selection.enter.
  replace (filter (fun e => Is_true (selection.has_class cls e)) children)
    with (@nil Element); [done|].
  symmetry. induction H as [|e l He _ IH]; [done|].
  rewrite filter_cons_False; [exact IH|].
  simpl. rewrite He. by intros [].
Qed.

Lemma has_class_other (cls c : string) (e : Element) :
  attrs e !! "class" = Some (AStr c) -> c <> cls ->
  selection.has_class cls e = false.
Proof.
  intros H Hne. unfold selection.has_class. rewrite H.
  apply bool_decide_eq_false_2. congruence.
Qed.

Section Draw.
Variable measure : string -> Qc.
Variable number_toString : number -> string.
Variable data : list Datum.
Variables width height : Qc.

Ltac pointwise :=
  unfold built, selection.nodes, selection.append, wrap,
    selection.attr, selection.style, selection.text, selection.each;
  rewrite <- !list_fmap_compose; reflexivity.

(** Every chain works node by node. *)
Lemma chain_nodes k cls tg build ds :
  chains measure number_toString data width height !! k = Some (cls, tg, build) ->
  selection.nodes (build (selection.append tg ds)) = built tg build <$> ds.
Proof.
  intros Hk. destruct k as [|[|[|[|[|[|[|?]]]]]]]; simplify_eq/=.
  - unfold horizontalGridlines. pointwise.
  - unfold linesV1V2. pointwise.
  - unfold circles1. pointwise.
  - unfold circles2. pointwise.
  - unfold value1Labels. pointwise.
  - unfold value2Labels. pointwise.
  - unfold categoryLabels. pointwise.
Qed.

Local Opaque selection.set_attr.

Ltac element_attr :=
  unfold built, horizontalGridlines, linesV1V2, circles1, circles2,
    value1Labels, value2Labels, categoryLabels;
  simpl;
  rewrite ?attrs_set_attr_ne by done;
  rewrite ?attrs_set_attr_eq; try done.

Lemma chain_class k cls tg build d :
  chains measure number_toString data width height !! k = Some (cls, tg, build) ->
  attrs (built tg build d) !! "class" = Some (AStr cls)
  /\ tag (built tg build d) = tg.
Proof.
  intros Hk. destruct k as [|[|[|[|[|[|[|?]]]]]]]; simplify_eq/=.
  all: split; [element_attr|reflexivity].
Qed.

Lemma chain_y k cls tg build d :
  chains measure number_toString data width height !! k = Some (cls, tg, build) ->
  attrs (built tg build d) !! y_attr tg
  = value_attr (yScale data height (Categories d)).
Proof.
  intros Hk. destruct k as [|[|[|[|[|[|[|?]]]]]]]; simplify_eq/=.
  all: element_attr.
Qed.

Lemma chain_dasharray k cls tg build d :
  chains measure number_toString data width height !! k = Some (cls, tg, build) ->
  attrs (built tg build d) !! "stroke-dasharray"
  = if bool_decide (k = 0%nat) then Some (AStr "3 3") else None.
Proof.
  intros Hk. destruct k as [|[|[|[|[|[|[|?]]]]]]]; simplify_eq/=.
  all: element_attr.
Qed.

Lemma chains_NoDup :
  NoDup ((fun c => c.1.1) <$> chains measure number_toString data width height).
Proof.
  simpl. repeat (apply NoDup_cons; split;
    [intros H; repeat (apply elem_of_cons in H as [H|H]; [discriminate H|]);
     by apply elem_of_nil in H|]).
  apply NoDup_nil_2.
Qed.

(** A layer drawn over children of other classes appends one element per
    datum. *)
Lemma layer_fresh svg cls tg k build :
  chains measure number_toString data width height !! k = Some (cls, tg, build) ->
  Forall (fun e => selection.has_class cls e = false) (svg_children svg) ->
  svg_children (layer svg cls tg data build)
  = svg_children svg ++ (built tg build <$> data).
Proof.
  intros Hk H. unfold layer. simpl. rewrite enter_fresh by done.
  by erewrite chain_nodes.
Qed.

Lemma built_not_class k cls tg build k' cls' tg' build' :
  chains measure number_toString data width height !! k = Some (cls, tg, build) ->
  chains measure number_toString data width height !! k' = Some (cls', tg', build') ->
  k <> k' ->
  Forall (fun e => selection.has_class cls' e = false) (built tg build <$> data).
Proof.
  intros Hk Hk' Hne. apply Forall_fmap, Forall_forall. intros d _. simpl.
  destruct (chain_class k cls tg build d Hk) as [Hc _].
  apply (has_class_other cls' cls); [done|].
  intros ->. apply Hne.
  eapply (NoDup_lookup _ k k' cls' chains_NoDup); rewrite list_lookup_fmap.
  - by rewrite Hk.
  - by rewrite Hk'.
Qed.

Lemma draw_foldl (svg : Svg) :
  draw measure number_toString data width height svg
  = foldl (fun svg c => layer svg c.1.1 c.1.2 data c.2) svg
          (chains measure number_toString data width height).
Proof. reflexivity. Qed.

Lemma draw_prefix (svg : Svg) (j : nat) :
  svg_children svg = [] ->
  svg_children
    (foldl (fun svg c => layer svg c.1.1 c.1.2 data c.2) svg
           (take j (chains measure number_toString data width height)))
  = concat ((fun c => built c.1.2 c.2 <$> data)
              <$> take j (chains measure number_toString data width height)).
Proof.
  intros Hsvg. induction j as [|j IH]; [done|].
  destruct (chains measure number_toString data width height !! j)
    as [[[cls tg] build]|] eqn:Hj.
  - rewrite (take_S_r _ _ _ Hj), foldl_app, fmap_app, concat_app.
    cbn [foldl fst snd fmap list_fmap concat].
    rewrite (layer_fresh _ cls tg j build Hj).
    + by rewrite IH, app_nil_r.
    + rewrite IH. apply Forall_concat, Forall_fmap, Forall_forall.
      intros [[cls' tg'] build'] Hin. simpl.
      apply list_elem_of_lookup_1 in Hin as [k' Hk'].
      apply lookup_take_Some in Hk' as [Hk' Hlt].
      eapply (built_not_class k' cls' tg' build' j cls tg build); [done|done|lia].
  - apply lookup_ge_None in Hj. by rewrite !take_ge in IH |- * by lia.
Qed.

Lemma draw_children (svg : Svg) :
  svg_children svg = [] ->
  svg_children (draw measure number_toString data width height svg)
  = layers measure number_toString data width height.
Proof.
  intros Hsvg. rewrite draw_foldl.
  rewrite <- (take_ge (chains measure number_toString data width height) 7)
    by (simpl; lia).
  rewrite draw_prefix by done. by rewrite take_ge by (simpl; lia).
Qed.

Lemma layers_length :
  length (layers measure number_toString data width height)
  = (7 * length data)%nat.
Proof. unfold layers. simpl. rewrite !length_app, !length_fmap. simpl. lia. Qed.

Lemma layers_lookup k cls tg build i d :
  chains measure number_toString data width height !! k = Some (cls, tg, build) ->
  data !! i = Some d ->
  layers measure number_toString data width height !! (k * length data + i)%nat
  = Some (built tg build d).
Proof.
  intros Hk Hi. unfold layers.
  assert (Hlen : (i < length data)%nat) by (by eapply lookup_lt_Some).
  destruct k as [|[|[|[|[|[|[|?]]]]]]]; simplify_eq/=.
  all: repeat (rewrite lookup_app_r; rewrite ?length_fmap; [|lia]).
  all: rewrite ?lookup_app_l by (rewrite length_fmap; lia).
  all: match goal with
       | |- _ !! ?j = _ => replace j with i by lia
       end.
  all: by rewrite list_lookup_fmap, Hi.
Qed.

(** The attributes the chains give to the element of one datum. *)
Lemma gridline_attrs d :
  let g := built "line" (horizontalGridlines data width height) d in
  attrs g !! "x1" = Some (ANum (Num (left margin)))
  /\ attrs g !! "x2"
     = Some (ANum (sub (to_number (xScale data width (Value1 d)))
                       (Num circleRadius))).
Proof. split; element_attr. Qed.

Lemma connector_attrs d :
  let c := built "line" (linesV1V2 data width height) d in
  attrs c !! "x1"
  = Some (ANum (add (to_number (xScale data width (Value1 d)))
                    (Num circleRadius)))
  /\ attrs c !! "x2"
     = Some (ANum (sub (to_number (xScale data width (Value2 d)))
                       (Num circleRadius))).
Proof. split; element_attr. Qed.



Lemma categoryLabel_attrs d :
  let e := built "text" (categoryLabels measure data height) d in
  attrs e !! "x" = Some (ANum (Num (left margin - Qc_of_Z 10)))
  /\ attrs e !! "y" = value_attr (yScale data height (Categories d))
  /\ attrs e !! "text-anchor" = Some (AStr "end")
  /\ content e = Children (wrap_text measure (Categories d) (Qc_of_Z 100)).
Proof. repeat split; element_attr. Qed.

End Draw.

(** ** The label wrapper *)

Lemma length_app_s (a b : string) :
  String.length (a +:+ b) = (String.length a + String.length b)%nat.
Proof.
  induction a as [|c a IH]; [done|]. rewrite app_cons. simpl. by rewrite IH.
Qed.

Lemma join_length (l : list string) (w : string) :
  w ∈ l -> (String.length w <= String.length (JSString.join l))%nat.
Proof.
  induction l as [|x l IH]; intros Hw; [by apply elem_of_nil in Hw|].
  destruct l as [|x' l].
  - apply list_elem_of_singleton in Hw as ->. done.
  - rewrite join_cons, !length_app_s.
    apply elem_of_cons in Hw as [->|Hw]; [lia|].
    specialize (IH Hw). lia.
Qed.

Lemma measure10_monotone : monotone measure10.
Proof.
  intros l w Hw. unfold measure10. apply (proj1 (Z2Qc_inj_le _ _)).
  pose proof (join_length l w Hw). lia.
Qed.

(** C3 (amended).  For every text that does not begin with white space,
    every maximal width and every measurement, the fragments are the
    lines of the greedy loop, each joined by single spaces: starting
    from one empty line, every word of the text in turn is added to the
    current line when the line with the word measures no more than the
    width; otherwise the current line is closed as it is, also when it
    is empty, and the word starts the next line.  So the words of the
    fragments, in order, are the words of the text; every fragment after
    the first holds a word, and the first fragment is empty exactly when
    the text has no word or its first word alone is wider than the
    limit; and when no line measures less than one of its words, a word
    wider than the limit is alone in its fragment. *)
Theorem wrap_keeps_words_in_order (measure : string -> Qc) (text : string)
    (width : Qc) :
  starts_with_space text = false ->
  fragments measure text width
  = JSString.join <$> lines measure width (words text)
  /\ keeps_content measure text width
  /\ Forall (fun f => words f <> []) (tail (fragments measure text width))
  /\ (words (hd "" (fragments measure text width)) = []
      <-> (words text = []
           \/ exists w rest, words text = w :: rest /\ width < measure w))
  /\ (monotone measure -> wide_word_alone measure text width).
Proof.
  intros Hstart. split; [by apply fragments_lines|].
  split; [by apply wrap_keeps|].
  split; [by apply wrap_later_fragments|].
  split; [by apply wrap_first_fragment|].
  intros Hmono. by apply wrap_wide.
Qed.

Lemma wrap_keeps_words_in_order_witness :
  starts_with_space "a abcdefgh b" = false
  /\ fragments measure10 "a abcdefgh b" (Qc_of_Z 60)
     = JSString.join
         <$> lines measure10 (Qc_of_Z 60) (words "a abcdefgh b")
  /\ keeps_content measure10 "a abcdefgh b" (Qc_of_Z 60)
  /\ wide_word_alone measure10 "a abcdefgh b" (Qc_of_Z 60).
Proof.
  destruct (wrap_keeps_words_in_order measure10 "a abcdefgh b" (Qc_of_Z 60))
    as (Hlines & Hkeep & _ & _ & Hwide).
  - reflexivity.
  - split; [reflexivity|]. split; [exact Hlines|]. split; [exact Hkeep|].
    apply Hwide, measure10_monotone.
Defined.

(** C3 as stated fails: a first word wider than the limit leaves an
    empty fragment behind; a text that begins with white space loses all
    its words; and under a measurement that is not monotone a word wider
    than the limit shares its fragment. *)
Lemma wrap_claim_fails :
  (fragments measure10 "abcdefg" (Qc_of_Z 60) = [""; "abcdefg"]
   /\ ~ commits_only_words (fragments measure10 "abcdefg" (Qc_of_Z 60)))
  /\ (fragments measure10 " a b" (Qc_of_Z 60) = [""]
      /\ ~ keeps_content measure10 " a b" (Qc_of_Z 60))
  /\ (fragments measure_odd "a wide b" (Qc_of_Z 60) = ["a wide b"]
      /\ ~ wide_word_alone measure_odd "a wide b" (Qc_of_Z 60)).
Proof.
  split; [|split].
  - split; [by vm_compute|]. intros H. vm_compute in H.
    inversion H as [|? ? Hw _]. by apply Hw.
  - split; [by vm_compute|]. intros H. vm_compute in H. discriminate H.
  - split; [by vm_compute|]. intros H.
    destruct (H ["a"] "wide" ["b"]) as (fpre & fpost & Hfr & _).
    + by vm_compute.
    + by vm_compute.
    + change (fragments measure_odd "a wide b" (Qc_of_Z 60))
        with ["a wide b"] in Hfr.
      destruct fpre as [|f fpre]; [discriminate Hfr|].
      injection Hfr as _ Hnil. by destruct fpre.
Qed.

(** C8.  With ten pixels per code unit, [hello world foo] at width 60 is
    wrapped into one word per fragment, and [a b c d] at width 100 stays
    one fragment. *)
Theorem wrap_examples :
  fragments measure10 "hello world foo" (Qc_of_Z 60)
  = ["hello"; "world"; "foo"]
  /\ fragments measure10 "a b c d" (Qc_of_Z 100) = ["a b c d"].
Proof. split; by vm_compute. Qed.

(** ** The horizontal value scale *)

(** C4 (amended).  For non-empty data with finite values, [maxValue] is
    the largest of all the values; when it is not zero, [xScale(0)] is
    the left margin and [xScale(maxValue)] is [width - margin.right], so
    [xScale(0)] is below [xScale(maxValue)] whenever [margin.left] is
    below [width - margin.right]. *)
Theorem xScale_endpoints (data : list Datum) (width : Qc) :
  data <> [] -> Forall finite_datum data ->
  exists m,
    maxValue data = Some (Num m)
    /\ is_max_value m data
    /\ (m <> 0 ->
        xScale data width (Num 0) = Some (Num (left margin))
        /\ xScale data width (Num m) = Some (Num (width - right margin))
        /\ (left margin < width - right margin ->
            value_lt (xScale data width (Num 0)) (xScale data width (Num m)))).
Proof.
  intros Hne Hfin.
  destruct (maxValue_finite data Hne Hfin) as (m & Hm & Hmax).
  exists m. split; [done|]. split; [done|]. unfold xScale. rewrite Hm.
  intros Hm0.
  assert (Hends :
    d3.scaleLinear (Some (Num 0)) (Some (Num m)) (left margin)
      (width - right margin) (Num 0) = Some (Num (left margin))
    /\ d3.scaleLinear (Some (Num 0)) (Some (Num m)) (left margin)
         (width - right margin) (Num m) = Some (Num (width - right margin))).
  { destruct (Qclt_le_dec 0 m) as [Hpos|Hle].
    - rewrite !scaleLinear_rising by done.
      split; do 2 f_equal; field; done.
    - assert (Hneg : m < 0).
      { apply Qcle_lt_or_eq in Hle as [Hlt|Heq]; [done|by destruct Hm0]. }
      rewrite !scaleLinear_falling by done.
      split; do 2 f_equal; field; done. }
  destruct Hends as [H0 H1]. rewrite H0, H1.
  split; [done|]. split; [done|]. intros Hr. exact Hr.
Qed.

Lemma xScale_endpoints_witness :
  two_points <> []
  /\ Forall finite_datum two_points
  /\ xScale two_points (Qc_of_Z 500) (Num 0) = Some (Num (left margin))
  /\ xScale two_points (Qc_of_Z 500) (Num (Qc_of_Z 20))
     = Some (Num (Qc_of_Z 500 - right margin))
  /\ value_lt (xScale two_points (Qc_of_Z 500) (Num 0))
              (xScale two_points (Qc_of_Z 500) (Num (Qc_of_Z 20))).
Proof.
  destruct (xScale_endpoints two_points (Qc_of_Z 500))
    as (m & Hm & _ & Hends).
  - discriminate.
  - repeat constructor.
  - assert (Heq : m = Qc_of_Z 20).
    { vm_compute in Hm. injection Hm as <-. by apply Qc_is_canon. }
    subst m. split; [discriminate|]. split; [repeat constructor|].
    destruct Hends as (H0 & H1 & Hlt).
    { intros H. by apply (f_equal this) in H. }
    split; [exact H0|]. split; [exact H1|]. apply Hlt. reflexivity.
Defined.

(** C4 as stated fails: on data whose values are all zero the scale is
    constant, on negative data it falls, and in a viewport no wider than
    the two side margins it falls as well.  In binary64 it is not
    increasing on positive data in a wide viewport either: with the
    largest value 20 in a viewport 500 wide, 1 and the next double have
    the same x, and of two neighbouring doubles a little above 1 the
    larger has the smaller x. *)
Lemma xScale_not_always_increasing :
  ~ value_lt (xScale zeros (Qc_of_Z 500) (Num 0))
             (xScale zeros (Qc_of_Z 500) (Num 1))
  /\ ~ value_lt (xScale negatives (Qc_of_Z 500) (Num (Qc_of_Z (-5))))
                (xScale negatives (Qc_of_Z 500) (Num 0))
  /\ ~ value_lt (xScale two_points (Qc_of_Z 100) (Num 0))
                (xScale two_points (Qc_of_Z 100) (Num (Qc_of_Z 20)))
  /\ (Binary64.lt Binary64.one Binary64.after_one
      /\ Binary64.xScale_20_500 Binary64.one
         = Binary64.xScale_20_500 Binary64.after_one)
  /\ (Binary64.lt Binary64.above_one Binary64.after_above_one
      /\ Binary64.lt (Binary64.xScale_20_500 Binary64.after_above_one)
                     (Binary64.xScale_20_500 Binary64.above_one)).
Proof.
  split; [vm_compute; discriminate|].
  split; [vm_compute; discriminate|].
  split; [vm_compute; discriminate|].
  repeat split; vm_compute; reflexivity.
Qed.

(** C5 (amended).  When the data is not empty and every value is zero,
    the upper bound of the domain is 0 and the scale sends every finite
    value to the middle of the range,
    [(margin.left + (width - margin.right)) / 2]. *)
Theorem xScale_zero_data_midpoint (data : list Datum) (width : Qc) :
  data <> [] -> Forall zero_datum data ->
  maxValue data = Some (Num 0)
  /\ forall v : Qc,
       xScale data width (Num v)
       = Some (Num ((left margin + (width - right margin)) / 2)).
Proof.
  intros Hne Hz. pose proof (maxValue_zeros data Hne Hz) as Hm.
  split; [done|]. intros v. unfold xScale. rewrite Hm.
  apply scaleLinear_flat.
Qed.

Lemma xScale_zero_data_midpoint_witness :
  zeros <> []
  /\ Forall zero_datum zeros
  /\ maxValue zeros = Some (Num 0)
  /\ xScale zeros (Qc_of_Z 500) (Num 0)
     = Some (Num ((left margin + (Qc_of_Z 500 - right margin)) / 2)).
Proof.
  destruct (xScale_zero_data_midpoint zeros (Qc_of_Z 500)) as [Hm Hx].
  - discriminate.
  - repeat constructor.
  - split; [discriminate|]. split; [repeat constructor|].
    split; [exact Hm|apply Hx].
Defined.

(** C5 as stated fails: with all values zero in a viewport 500 wide,
    [xScale(0)] is 285, not the left margin 100. *)
Lemma xScale_zero_data_not_left_margin :
  Forall zero_datum zeros
  /\ xScale zeros (Qc_of_Z 500) (Num 0) = Some (Num (Qc_of_Z 285))
  /\ xScale zeros (Qc_of_Z 500) (Num 0) <> Some (Num (left margin)).
Proof.
  split; [repeat constructor|]. split.
  - vm_compute. do 2 f_equal. by apply Qc_is_canon.
  - vm_compute. intros H. discriminate H.
Qed.

(** ** The vertical category scale *)

(** C6 (amended).  For distinct categories and a viewport at least as
    high as the top and the bottom margin together, the category at
    position [i] gets y = start + step * i, where step is the length of
    the range over max(1, n - 1) and is not negative, and start is
    [margin.top] plus half of what the steps leave of the range; so the
    y-coordinates never decrease in input order. *)
Theorem yScale_in_input_order (data : list Datum) (height : Qc) :
  NoDup (Categories <$> data) ->
  top margin <= height - bottom margin ->
  let n := length data in
  let start := point_start n (top margin) (height - bottom margin) in
  let step := point_step n (top margin) (height - bottom margin) in
  0 <= step
  /\ (forall i d, data !! i = Some d ->
        yScale data height (Categories d)
        = Some (Num (start + step * Qc_of_Z (Z.of_nat i))))
  /\ (forall i j di dj, data !! i = Some di -> data !! j = Some dj ->
        (i < j)%nat ->
        value_le (yScale data height (Categories di))
                 (yScale data height (Categories dj))).
Proof.
  intros Hnd Hrange n start step.
  assert (Hstep : 0 <= step) by (by apply point_step_nonneg).
  assert (Hy : forall i d, data !! i = Some d ->
            yScale data height (Categories d)
            = Some (Num (start + step * Qc_of_Z (Z.of_nat i)))).
  { intros i d Hi. unfold yScale.
    rewrite (scalePoint_NoDup _ _ Hrange _ i (Categories d) Hnd).
    - by rewrite length_fmap.
    - by rewrite list_lookup_fmap, Hi. }
  split; [done|]. split; [done|].
  intros i j di dj Hi Hj Hlt. rewrite (Hy i di Hi), (Hy j dj Hj). simpl.
  apply Qcplus_le_mono_l, Qcmult_le_mono_nonneg_l; [done|].
  apply (proj1 (Z2Qc_inj_le _ _)). lia.
Qed.

Lemma yScale_in_input_order_witness :
  NoDup (Categories <$> two_points)
  /\ top margin <= Qc_of_Z 300 - bottom margin
  /\ yScale two_points (Qc_of_Z 300) "B"
     = Some (Num (point_start 2 (top margin) (Qc_of_Z 300 - bottom margin)
                  + point_step 2 (top margin) (Qc_of_Z 300 - bottom margin)
                    * Qc_of_Z 1))
  /\ value_le (yScale two_points (Qc_of_Z 300) "A")
              (yScale two_points (Qc_of_Z 300) "B").
Proof.
  assert (Hnd : NoDup (Categories <$> two_points)).
  { simpl. apply NoDup_cons. split.
    - intros H. apply list_elem_of_singleton in H. discriminate H.
    - apply NoDup_singleton. }
  assert (Hrange : top margin <= Qc_of_Z 300 - bottom margin)
    by (vm_compute; discriminate).
  destruct (yScale_in_input_order two_points (Qc_of_Z 300) Hnd Hrange)
    as (_ & Hy & Hle).
  split; [exact Hnd|]. split; [exact Hrange|]. split.
  - exact (Hy 1%nat _ eq_refl).
  - exact (Hle 0%nat 1%nat _ _ eq_refl eq_refl (le_n 1)).
Defined.

(** C6 as stated fails: in a viewport 90 high two categories share one
    y, and in a viewport 50 high the y of the second is above the y of
    the first.  In binary64 the y-coordinates are neither strictly
    increasing nor evenly spaced in a higher viewport: with five
    categories in a viewport one double above 90 high, the range rises
    and yet the first two share one y while the third lies below them
    on the screen; and with forty categories in a viewport 300 high the
    first y is above [margin.top] on the screen. *)
Lemma yScale_not_always_increasing :
  NoDup (Categories <$> two_points)
  /\ yScale two_points (Qc_of_Z 90) "A" = yScale two_points (Qc_of_Z 90) "B"
  /\ ~ value_lt (yScale two_points (Qc_of_Z 90) "A")
                (yScale two_points (Qc_of_Z 90) "B")
  /\ value_lt (yScale two_points (Qc_of_Z 50) "B")
              (yScale two_points (Qc_of_Z 50) "A")
  /\ (Binary64.lt Binary64.margin_top Binary64.range_end_after_90
      /\ exists y0 y2,
           Binary64.yScale_after_90 5 0 = Some y0
           /\ Binary64.yScale_after_90 5 1 = Some y0
           /\ Binary64.yScale_after_90 5 2 = Some y2
           /\ Binary64.lt y0 y2)
  /\ (exists y0,
        Binary64.yScale_300 40 0 = Some y0
        /\ Binary64.lt y0 Binary64.margin_top).
Proof.
  split.
  { simpl. apply NoDup_cons. split.
    - intros H. apply list_elem_of_singleton in H. discriminate H.
    - apply NoDup_singleton. }
  split; [by vm_compute|]. split; [vm_compute; discriminate|].
  split; [by vm_compute|]. split.
  - split; [vm_compute; reflexivity|]. eexists _, _.
    repeat split; vm_compute; reflexivity.
  - eexists. split; vm_compute; reflexivity.
Qed.

(** ** [update] *)

Section Update.
Variable measure : string -> Qc.
Variable number_toString : number -> string.

Lemma update_dataset (svg : Svg) (options : VisualUpdateOptions)
    (data : list Datum) :
  dataset options = Some data ->
  update measure number_toString svg options
  = (draw measure number_toString data
          (width (viewport options)) (height (viewport options))
          (clear (width (viewport options)) (height (viewport options)) svg),
     Return).
Proof.
  unfold dataset, the_categorical, update. intros H.
  destruct (head (dataViews options)) as [dv|]; [|discriminate H].
  cbn [mbind option_bind] in H |- *.
  destruct (categorical dv) as [c|]; [|discriminate H].
  destruct (categories c) as [[|cats crest]|]; [discriminate H| |discriminate H].
  destruct (values c) as [[|v1 [|v2 vrest]]|]; try discriminate H.
  injection H as <-. reflexivity.
Qed.

Lemma update_children (svg : Svg) (options : VisualUpdateOptions)
    (data : list Datum) :
  dataset options = Some data ->
  (update measure number_toString svg options).2 = Return
  /\ svg_children (update measure number_toString svg options).1
     = layers measure number_toString data
              (width (viewport options)) (height (viewport options)).
Proof.
  intros H. rewrite (update_dataset svg options data H).
  split; [reflexivity|]. cbn [fst]. by apply draw_children.
Qed.

(** The guards of [update]: without a data view, a categorical part, a
    category field or two measure fields, the call returns right after
    clearing. *)
Lemma update_guarded (svg : Svg) (options : VisualUpdateOptions) :
  without_categories options \/ fewer_than_two_measures options ->
  update measure number_toString svg options
  = (clear (width (viewport options)) (height (viewport options)) svg, Return).
Proof.
  unfold without_categories, fewer_than_two_measures, the_categorical,
    update.
  destruct (head (dataViews options)) as [dv|]; [|reflexivity].
  cbn [mbind option_bind].
  destruct (categorical dv) as [c|]; [|reflexivity].
  intros [Hc | Hv].
  - rewrite Hc. reflexivity.
  - destruct (categories c) as [cs|]; [|reflexivity].
    destruct (values c) as [vs|]; [|reflexivity].
    rewrite bool_decide_eq_true_2 by exact Hv. reflexivity.
Qed.

(** Past the guards, [categories[0]] of an array without a column is
    undefined, and reading [values] of it throws; the surface has been
    cleared by then. *)
Lemma update_no_column (svg : Svg) (options : VisualUpdateOptions) :
  no_category_column options ->
  update measure number_toString svg options
  = (clear (width (viewport options)) (height (viewport options)) svg,
     TypeError).
Proof.
  intros (c & vs & Hc & Hcs & Hvs & Hlen).
  unfold the_categorical in Hc. unfold update.
  destruct (head (dataViews options)) as [dv|]; [|discriminate Hc].
  cbn [mbind option_bind] in Hc. rewrite Hc, Hcs, Hvs.
  rewrite bool_decide_eq_false_2 by lia. reflexivity.
Qed.

(** Without the data to extract nothing is drawn. *)
Lemma update_no_dataset (svg : Svg) (options : VisualUpdateOptions) :
  dataset options = None ->
  svg_children (update measure number_toString svg options).1 = [].
Proof.
  unfold dataset, the_categorical, update. intros Hd.
  destruct (head (dataViews options)) as [dv|]; [|reflexivity].
  cbn [mbind option_bind] in Hd |- *.
  destruct (categorical dv) as [c|]; [|reflexivity].
  destruct (categories c) as [[|cats crest]|]; [| |reflexivity].
  - destruct (values c) as [[|v1 [|v2 vrest]]|]; reflexivity.
  - destruct (values c) as [[|v1 [|v2 vrest]]|];
      first [discriminate Hd | reflexivity].
Qed.

(** Without the data to extract, [update] returns unless the
    [categories] array has no column beside two measure columns. *)
Lemma update_returns (svg : Svg) (options : VisualUpdateOptions) :
  ~ no_category_column options ->
  (update measure number_toString svg options).2 = Return.
Proof.
  intros Hno. unfold update.
  destruct (head (dataViews options)) as [dv|] eqn:Hdv; [|reflexivity].
  destruct (categorical dv) as [c|] eqn:Hc; [|reflexivity].
  destruct (categories c) as [cs|] eqn:Hcs; [|reflexivity].
  destruct (values c) as [vs|] eqn:Hvs; [|reflexivity].
  case_bool_decide as Hlen; [reflexivity|].
  destruct cs as [|cats crest].
  - destruct Hno. exists c, vs. unfold the_categorical. rewrite Hdv.
    cbn [mbind option_bind]. repeat split; [done|done|done|lia].
  - destruct vs as [|v1 [|v2 vrest]]; [simpl in Hlen; lia|simpl in Hlen; lia|].
    reflexivity.
Qed.

End Update.

(** C1 (amended).  When the data view has no categorical field (no data
    view, no categorical part, no [categories], or a [categories] array
    without a column), or has fewer than two measure fields, or its
    category column is empty, the call leaves the surface cleared with
    nothing drawn on it, whatever it held before; it returns, except
    that a [categories] array without a column beside at least two
    measure fields makes it throw a TypeError after the clearing.  The
    viewport is not looked at: whenever the data view has a category
    column and two measure columns, the call returns with seven
    primitives per data point on the surface, whatever the width and
    the height. *)
Theorem update_without_data_draws_nothing (measure : string -> Qc)
    (number_toString : number -> string) (svg : Svg)
    (options : VisualUpdateOptions) :
  let out := update measure number_toString svg options in
  (lacks_categorical_field options
   \/ fewer_than_two_measures options
   \/ empty_dataset options ->
   svg_children out.1 = []
   /\ (no_category_column options -> out.2 = TypeError)
   /\ (~ no_category_column options -> out.2 = Return))
  /\ (forall data, dataset options = Some data ->
        out.2 = Return
        /\ length (svg_children out.1) = (7 * length data)%nat).
Proof.
  intros out. unfold out. split.
  - intros H.
    split; [|split;
      [intros Hno; by rewrite update_no_column
      |apply update_returns]].
    destruct (dataset options) as [data|] eqn:Hd.
    + destruct (update_children measure number_toString svg options data Hd)
        as [_ Hch].
      rewrite Hch.
      assert (Hdata : data = []); [|by rewrite Hdata].
      unfold dataset, lacks_categorical_field, fewer_than_two_measures,
        empty_dataset in Hd, H.
      destruct (the_categorical options) as [c|]; [|discriminate Hd].
      destruct (categories c) as [[|cells crest]|]; try discriminate Hd.
      destruct (values c) as [[|v1 [|v2 vrest]]|]; try discriminate Hd.
      injection Hd as <-.
      destruct H as [[H|H] | [H | H]];
        [discriminate H|discriminate H|simpl in H; lia|by subst cells].
    + by apply update_no_dataset.
  - intros data Hd.
    destruct (update_children measure number_toString svg options data Hd)
      as [Hret Hch].
    split; [exact Hret|]. rewrite Hch. apply layers_length.
Qed.

Lemma update_without_data_draws_nothing_witness :
  let drawn := (sample_update 500 300 ["A"] [n 1] [n 2]).1 in
  let out :=
    update measure10 sample_toString drawn
           (options_without_column (Qc_of_Z 500) (Qc_of_Z 300)) in
  lacks_categorical_field (options_without_column (Qc_of_Z 500) (Qc_of_Z 300))
  /\ no_category_column (options_without_column (Qc_of_Z 500) (Qc_of_Z 300))
  /\ length (svg_children drawn) = 7%nat
  /\ svg_children out.1 = []
  /\ out.2 = TypeError.
Proof.
  intros drawn out.
  assert (Hlacks : lacks_categorical_field
                     (options_without_column (Qc_of_Z 500) (Qc_of_Z 300)))
    by (right; reflexivity).
  assert (Hno : no_category_column
                  (options_without_column (Qc_of_Z 500) (Qc_of_Z 300))).
  { eexists _, _. repeat split; simpl; lia. }
  destruct (update_without_data_draws_nothing measure10 sample_toString drawn
              (options_without_column (Qc_of_Z 500) (Qc_of_Z 300)))
    as [Hnothing _].
  destruct (Hnothing (or_introl Hlacks)) as (Hch & Hthrow & _).
  split; [exact Hlacks|]. split; [exact Hno|].
  split; [vm_compute; reflexivity|]. split; [exact Hch|exact (Hthrow Hno)].
Defined.

(** C1 as stated fails: in a viewport 0 by 0 a data set of one point is
    still drawn, all seven primitives of it. *)
Lemma update_draws_in_empty_viewport :
  non_positive_viewport (options_of 0 0 ["A"] [n 1] [n 2])
  /\ length
       (svg_children
          (update measure10 sample_toString blank
             (options_of 0 0 ["A"] [n 1] [n 2])).1) = 7%nat.
Proof.
  split; [left; apply Qcle_refl|vm_compute; reflexivity].
Qed.

(** C2.  For a non-empty data set and a positive viewport the call
    returns with exactly seven primitives per data point on the
    surface.  They come kind by kind, in the fixed order dashed
    gridline, connector line, Value1 circle, Value2 circle, Value1
    label, Value2 label, category label, and within a kind in the order
    of the data: the primitive of kind [k] for the point at position [i]
    is the child at position [k * n + i]. *)
Theorem update_seven_primitives_per_point (measure : string -> Qc)
    (number_toString : number -> string) (svg : Svg)
    (options : VisualUpdateOptions) (data : list Datum) :
  dataset options = Some data ->
  data <> [] ->
  0 < width (viewport options) -> 0 < height (viewport options) ->
  let w := width (viewport options) in
  let h := height (viewport options) in
  let out := update measure number_toString svg options in
  out.2 = Return
  /\ length (svg_children out.1) = (7 * length data)%nat
  /\ (fun c => c.1) <$> chains measure number_toString data w h
     = [("horizontalGridlines", "line"); ("linesV1V2", "line");
        ("circles1", "circle"); ("circles2", "circle");
        ("value1Labels", "text"); ("value2Labels", "text");
        ("categoryLabels", "text")]
  /\ forall i d, data !! i = Some d ->
     forall k cls tg build,
       chains measure number_toString data w h !! k = Some (cls, tg, build) ->
       exists e,
         svg_children out.1 !! (k * length data + i)%nat = Some e
         /\ e = built tg build d
         /\ tag e = tg
         /\ attrs e !! "class" = Some (AStr cls)
         /\ attrs e !! y_attr tg = value_attr (yScale data h (Categories d))
         /\ attrs e !! "stroke-dasharray"
            = if bool_decide (k = 0%nat) then Some (AStr "3 3") else None.
Proof.
  intros Hd _ _ _ w h out.
  destruct (update_children measure number_toString svg options data Hd)
    as [Hret Hch].
  split; [exact Hret|]. split; [unfold out; rewrite Hch; apply layers_length|].
  split; [reflexivity|].
  intros i d Hi k cls tg build Hk. exists (built tg build d).
  split; [unfold out; rewrite Hch; by apply (layers_lookup _ _ _ _ _ k cls)|].
  split; [reflexivity|].
  destruct (chain_class measure number_toString data w h k cls tg build d Hk)
    as [Hc Ht].
  split; [exact Ht|]. split; [exact Hc|].
  split; [by apply (chain_y measure number_toString data w h k cls)|].
  by apply (chain_dasharray measure number_toString data w h k cls tg).
Qed.

Lemma update_seven_primitives_per_point_witness :
  let options :=
    options_of (Qc_of_Z 500) (Qc_of_Z 300) ["A"; "B"]
               [n 10; n 0] [n 20; n 5] in
  dataset options = Some two_points
  /\ two_points <> []
  /\ 0 < width (viewport options) /\ 0 < height (viewport options)
  /\ length
       (svg_children (update measure10 sample_toString blank options).1)
     = 14%nat.
Proof.
  intros options.
  assert (Hd : dataset options = Some two_points) by reflexivity.
  assert (Hne : two_points <> []) by discriminate.
  assert (Hw : 0 < width (viewport options)) by reflexivity.
  assert (Hh : 0 < height (viewport options)) by reflexivity.
  destruct (update_seven_primitives_per_point measure10 sample_toString blank
              options two_points Hd Hne Hw Hh) as (_ & Hlen & _).
  split; [exact Hd|]. split; [exact Hne|]. split; [exact Hw|].
  split; [exact Hh|exact Hlen].
Defined.

(** C10.  For every data point the gridline runs from [margin.left] to
    [xScale(Value1) - circleRadius] and the connector from
    [xScale(Value1) + circleRadius] to [xScale(Value2) - circleRadius],
    exactly, with no clamping; when Value1 is 0 and the largest value is
    positive, the gridline ends at [margin.left - circleRadius], left of
    where it starts. *)
Theorem gridline_and_connector_endpoints (measure : string -> Qc)
    (number_toString : number -> string) (svg : Svg)
    (options : VisualUpdateOptions) (data : list Datum) (i : nat) (d : Datum) :
  dataset options = Some data ->
  data !! i = Some d ->
  let out := (update measure number_toString svg options).1 in
  let x := xScale data (width (viewport options)) in
  exists g c,
    svg_children out !! i = Some g
    /\ svg_children out !! (length data + i)%nat = Some c
    /\ attrs g !! "class" = Some (AStr "horizontalGridlines")
    /\ attrs c !! "class" = Some (AStr "linesV1V2")
    /\ attrs g !! "x1" = Some (ANum (Num (left margin)))
    /\ attrs g !! "x2"
       = Some (ANum (sub (to_number (x (Value1 d))) (Num circleRadius)))
    /\ attrs c !! "x1"
       = Some (ANum (add (to_number (x (Value1 d))) (Num circleRadius)))
    /\ attrs c !! "x2"
       = Some (ANum (sub (to_number (x (Value2 d))) (Num circleRadius)))
    /\ (forall m, Value1 d = Num 0 -> maxValue data = Some (Num m) -> 0 < m ->
          attrs g !! "x2" = Some (ANum (Num (left margin - circleRadius)))
          /\ left margin - circleRadius < left margin).
Proof.
  intros Hd Hi out x.
  destruct (update_children measure number_toString svg options data Hd)
    as [_ Hch].
  set (w := width (viewport options)) in *.
  set (h := height (viewport options)) in *.
  exists (built "line" (horizontalGridlines data w h) d),
         (built "line" (linesV1V2 data w h) d).
  unfold out. rewrite Hch.
  split.
  { apply (layers_lookup measure number_toString data w h 0
             "horizontalGridlines" "line" _ i d eq_refl Hi). }
  split.
  { replace (length data + i)%nat with (1 * length data + i)%nat by lia.
    apply (layers_lookup measure number_toString data w h 1
             "linesV1V2" "line" _ i d eq_refl Hi). }
  destruct (gridline_attrs data w h d) as [Hx1 Hx2].
  destruct (connector_attrs data w h d) as [Hc1 Hc2].
  split.
  { apply (chain_class measure number_toString data w h 0
             "horizontalGridlines" "line" _ d eq_refl). }
  split.
  { apply (chain_class measure number_toString data w h 1
             "linesV1V2" "line" _ d eq_refl). }
  split; [exact Hx1|]. split; [exact Hx2|].
  split; [exact Hc1|]. split; [exact Hc2|].
  intros m Hzero Hm Hpos. split; [|reflexivity].
  rewrite Hx2, Hzero. unfold x, xScale. rewrite Hm.
  rewrite scaleLinear_rising by exact Hpos. cbn [to_number sub].
  do 3 f_equal. field. by apply Qc_pos_neq_0.
Qed.

Lemma gridline_and_connector_endpoints_witness :
  let options :=
    options_of (Qc_of_Z 500) (Qc_of_Z 300) ["A"; "B"]
               [n 10; n 0] [n 20; n 5] in
  let out := (update measure10 sample_toString blank options).1 in
  dataset options = Some two_points
  /\ two_points !! 1%nat = Some (mkDatum "B" (Num 0) (Num (int 5)))
  /\ maxValue two_points = Some (Num (int 20))
  /\ exists g,
       svg_children out !! 1%nat = Some g
       /\ attrs g !! "x1" = Some (ANum (Num (left margin)))
       /\ attrs g !! "x2" = Some (ANum (Num (left margin - circleRadius)))
       /\ left margin - circleRadius < left margin.
Proof.
  intros options out.
  assert (Hd : dataset options = Some two_points) by reflexivity.
  assert (Hi : two_points !! 1%nat = Some (mkDatum "B" (Num 0) (Num (int 5))))
    by reflexivity.
  assert (Hm : maxValue two_points = Some (Num (int 20))) by (vm_compute; reflexivity).
  destruct (gridline_and_connector_endpoints measure10 sample_toString blank
              options two_points 1 _ Hd Hi)
    as (g & c & Hg & _ & _ & _ & Hx1 & _ & _ & _ & Hleft).
  destruct (Hleft (int 20) eq_refl Hm eq_refl) as [Hx2 Hlt].
  split; [exact Hd|]. split; [exact Hi|]. split; [exact Hm|].
  exists g. split; [exact Hg|]. split; [exact Hx1|]. split; [exact Hx2|exact Hlt].
Defined.

(** ** The fragments of a wrapped label *)

Section WrapAttrs.
Variable measure : string -> Qc.
Variable width : Qc.

Lemma wrap_body_attrs (w : string) (st : WrapState) (k : nat) :
  ts_attrs <$> (finished st ++ [tspan st])
  = ts_attrs (new_tspan "0em" "")
    :: replicate k (ts_attrs (new_tspan lineHeight "")) ->
  exists k',
    ts_attrs <$> (finished (wrap_body measure width w st)
                  ++ [tspan (wrap_body measure width w st)])
    = ts_attrs (new_tspan "0em" "")
      :: replicate k' (ts_attrs (new_tspan lineHeight "")).
Proof.
  intros H. unfold wrap_body. case_bool_decide.
  - exists (S k). cbn [finished tspan]. rewrite fmap_app in H |- *.
    rewrite fmap_app. cbn [fmap list_fmap tspan_text ts_attrs] in H |- *.
    rewrite H. by rewrite replicate_S_end.
  - exists k. cbn [finished tspan]. rewrite fmap_app in H |- *.
    exact H.
Qed.

Lemma wrap_words_attrs (ws : list string) :
  forall st k,
    ts_attrs <$> (finished st ++ [tspan st])
    = ts_attrs (new_tspan "0em" "")
      :: replicate k (ts_attrs (new_tspan lineHeight "")) ->
    exists k',
      ts_attrs <$> (finished (wrap_words measure width ws st)
                    ++ [tspan (wrap_words measure width ws st)])
      = ts_attrs (new_tspan "0em" "")
        :: replicate k' (ts_attrs (new_tspan lineHeight "")).
Proof.
  induction ws as [|w ws IH]; intros st k H; [by exists k|].
  simpl. case_bool_decide; [by exists k|].
  destruct (wrap_body_attrs w st k H) as [k' Hk']. by apply (IH _ k').
Qed.

Lemma wrap_text_attrs (text : string) :
  exists k,
    ts_attrs <$> wrap_text measure text width
    = ts_attrs (new_tspan "0em" "")
      :: replicate k (ts_attrs (new_tspan lineHeight "")).
Proof.
  rewrite wrap_text_words. by apply (wrap_words_attrs _ wrap_start 0).
Qed.

Lemma wrap_text_stacked (text : string) :
  stacked (wrap_text measure text width)
  /\ Forall (fun t => fragment_x t = Some (ANum (Num 0)))
            (wrap_text measure text width).
Proof.
  destruct (wrap_text_attrs text) as [k Hk].
  destruct (wrap_text measure text width) as [|t ts]; [discriminate Hk|].
  injection Hk as Ht Hts.
  assert (Hall : Forall (fun t => ts_attrs t = ts_attrs (new_tspan lineHeight ""))
                        ts).
  { clear Ht. revert k Hts. induction ts as [|t' ts IH]; intros k Hts;
      [constructor|].
    destruct k as [|k]; [discriminate Hts|]. injection Hts as Ht' Hts.
    constructor; [exact Ht'|by apply (IH k)]. }
  split.
  - split; [by rewrite Ht|].
    eapply Forall_impl; [exact Hall|]. intros t' ->. reflexivity.
  - constructor; [unfold fragment_x; by rewrite Ht|].
    eapply Forall_impl; [exact Hall|]. intros t' Ht'.
    unfold fragment_x. by rewrite Ht'.
Qed.

End WrapAttrs.

(** C7 (the code as it is).  The category label of every data point is a
    [text] element anchored at its end at x = [margin.left - 10] and at
    the y of the point; its fragments are stacked by [dy], the first on
    the baseline and each later one 1.2em below, but every fragment is
    given x = 0, which is not the x of the anchor. *)
Theorem category_label_fragments_at_x0 (measure : string -> Qc)
    (number_toString : number -> string) (svg : Svg)
    (options : VisualUpdateOptions) (data : list Datum) (i : nat) (d : Datum) :
  dataset options = Some data ->
  data !! i = Some d ->
  let out := (update measure number_toString svg options).1 in
  exists e,
    svg_children out !! (6 * length data + i)%nat = Some e
    /\ attrs e !! "class" = Some (AStr "categoryLabels")
    /\ attrs e !! "x" = Some (ANum (Num (left margin - Qc_of_Z 10)))
    /\ attrs e !! "y"
       = value_attr (yScale data (height (viewport options)) (Categories d))
    /\ attrs e !! "text-anchor" = Some (AStr "end")
    /\ ts_text <$> tspans e = fragments measure (Categories d) (Qc_of_Z 100)
    /\ stacked (tspans e)
    /\ Forall (fun t => fragment_x t = Some (ANum (Num 0))) (tspans e)
    /\ left margin - Qc_of_Z 10 <> 0.
Proof.
  intros Hd Hi out.
  destruct (update_children measure number_toString svg options data Hd)
    as [_ Hch].
  set (w := width (viewport options)) in *.
  set (h := height (viewport options)) in *.
  exists (built "text" (categoryLabels measure data h) d).
  unfold out. rewrite Hch. split.
  { apply (layers_lookup measure number_toString data w h 6
             "categoryLabels" "text" _ i d eq_refl Hi). }
  split.
  { apply (chain_class measure number_toString data w h 6
             "categoryLabels" "text" _ d eq_refl). }
  destruct (categoryLabel_attrs measure data h d) as (Hx & Hy & Ha & Hc).
  split; [exact Hx|]. split; [exact Hy|]. split; [exact Ha|].
  unfold tspans. rewrite Hc.
  destruct (wrap_text_stacked measure (Qc_of_Z 100) (Categories d))
    as [Hst Hx0].
  split; [reflexivity|]. split; [exact Hst|]. split; [exact Hx0|].
  intros H. by apply (f_equal this) in H.
Qed.

Lemma category_label_fragments_at_x0_witness :
  let options :=
    options_of (Qc_of_Z 500) (Qc_of_Z 300) ["North East Region Sales"]
               [n 10] [n 20] in
  let out := (update measure10 sample_toString blank options).1 in
  exists e,
    svg_children out !! 6%nat = Some e
    /\ attrs e !! "x" = Some (ANum (Num (left margin - Qc_of_Z 10)))
    /\ ts_text <$> tspans e = ["North East"; "Region"; "Sales"]
    /\ Forall (fun t => fragment_x t = Some (ANum (Num 0))) (tspans e).
Proof.
  intros options out.
  destruct (category_label_fragments_at_x0 measure10 sample_toString blank
              options _ 0 _ eq_refl eq_refl)
    as (e & He & _ & Hx & _ & _ & Hfr & _ & Hx0 & _).
  exists e. split; [exact He|]. split; [exact Hx|]. split; [|exact Hx0].
  rewrite Hfr. vm_compute. reflexivity.
Defined.


(** ** More on the label wrapper *)

Section WrapMore.
Variable measure : string -> Qc.
Variable width : Qc.

Lemma split_leading_space (text : string) :
  starts_with_space text = true ->
  exists rest, JSString.split text = "" :: rest.
Proof.
  destruct text as [|c s]; [discriminate|]. simpl. intros Hc.
  unfold JSString.split. simpl. rewrite Hc. by eexists.
Qed.

Lemma fragments_leading_space (text : string) :
  starts_with_space text = true -> fragments measure text width = [""].
Proof.
  intros H. destruct (split_leading_space text H) as [rest Hrest].
  unfold fragments. rewrite wrap_text_words, Hrest. reflexivity.
Qed.

Lemma lines_fit_from (ws : list string) :
  forall ls l,
    Forall (line_fits measure width) ls -> line_fits measure width l ->
    Forall (line_fits measure width)
      ((foldl (lines_body measure width) (ls, l) ws).1
       ++ [(foldl (lines_body measure width) (ls, l) ws).2]).
Proof.
  induction ws as [|w ws IH]; intros ls l Hls Hl.
  - simpl. apply Forall_app. split; [done|by constructor].
  - simpl. unfold lines_body at 2 4. simpl. case_bool_decide as Hw.
    + apply IH.
      * apply Forall_app. split; [done|by constructor].
      * left. simpl. lia.
    + apply IH; [done|]. right. by apply Qcnot_lt_le.
Qed.

Lemma lines_fit (ws : list string) :
  Forall (line_fits measure width) (lines measure width ws).
Proof. apply lines_fit_from; [constructor|left; simpl; lia]. Qed.

Lemma break_needed_snoc (a b : list string) (w : string) :
  break_needed measure width a b -> break_needed measure width a (b ++ [w]).
Proof. intros (w0 & rest & -> & H). by exists w0, (rest ++ [w]). Qed.

Lemma breaks_from (ws : list string) :
  forall ls l,
    (forall i a b, (ls ++ [l]) !! i = Some a -> (ls ++ [l]) !! S i = Some b ->
       break_needed measure width a b) ->
    forall i a b,
      ((foldl (lines_body measure width) (ls, l) ws).1
       ++ [(foldl (lines_body measure width) (ls, l) ws).2]) !! i = Some a ->
      ((foldl (lines_body measure width) (ls, l) ws).1
       ++ [(foldl (lines_body measure width) (ls, l) ws).2]) !! S i = Some b ->
      break_needed measure width a b.
Proof.
  induction ws as [|w ws IH]; intros ls l Hinv; [exact Hinv|].
  simpl. unfold lines_body at 2 4 6 8. simpl. case_bool_decide as Hw.
  - apply IH. intros i a b Ha Hb.
    destruct (decide (S i < length (ls ++ [l]))%nat) as [Hlt|Hge].
    + rewrite lookup_app_l in Ha by lia. rewrite lookup_app_l in Hb by done.
      by apply (Hinv i).
    + assert (Hi : S i = length (ls ++ [l])).
      { apply lookup_lt_Some in Hb. rewrite length_app in Hb. simpl in Hb. lia. }
      rewrite lookup_app_r in Hb by lia.
      rewrite Hi, Nat.sub_diag in Hb. injection Hb as <-.
      rewrite lookup_app_l in Ha by lia.
      rewrite length_app in Hi. simpl in Hi.
      rewrite lookup_app_r in Ha by lia.
      replace (i - length ls)%nat with 0%nat in Ha by lia.
      injection Ha as <-. by exists w, [].
  - apply IH. intros i a b Ha Hb.
    destruct (decide (S i < length ls)%nat) as [Hlt|Hge].
    + rewrite lookup_app_l in Ha by lia. rewrite lookup_app_l in Hb by done.
      apply (Hinv i); by rewrite lookup_app_l by lia.
    + assert (Hi : S i = length ls).
      { apply lookup_lt_Some in Hb. rewrite length_app in Hb. simpl in Hb. lia. }
      rewrite lookup_app_r in Hb by lia.
      rewrite Hi, Nat.sub_diag in Hb. injection Hb as <-.
      rewrite lookup_app_l in Ha by lia.
      apply break_needed_snoc. apply (Hinv i).
      * by rewrite lookup_app_l by lia.
      * rewrite lookup_app_r by lia. by rewrite Hi, Nat.sub_diag.
Qed.

Lemma lines_breaks (ws : list string) (i : nat) (a b : list string) :
  lines measure width ws !! i = Some a ->
  lines measure width ws !! S i = Some b ->
  break_needed measure width a b.
Proof.
  apply (breaks_from ws [] []). intros j a' b' _ Hb. by destruct j.
Qed.

Lemma lines_all_fit (ws : list string) :
  forall pre,
    (forall k, (k <= length ws)%nat -> (0 < length pre + k)%nat ->
       measure (JSString.join (pre ++ take k ws)) <= width) ->
    foldl (lines_body measure width) ([], pre) ws = ([], pre ++ ws).
Proof.
  induction ws as [|w ws IH]; intros pre Hfit.
  - simpl. by rewrite app_nil_r.
  - simpl. unfold lines_body at 2. simpl.
    rewrite bool_decide_eq_false_2.
    + rewrite IH; [by rewrite <- app_assoc|].
      intros k Hk _. rewrite <- app_assoc. simpl.
      apply (Hfit (S k)); simpl; lia.
    + apply Qcle_not_lt. apply (Hfit 1%nat); simpl; lia.
Qed.

Lemma lines_length (ws : list string) :
  (1 <= length (lines measure width ws) <= S (length ws))%nat.
Proof.
  destruct ws as [|w ws]; [simpl; lia|].
  destruct (lines_cons measure width w ws) as (M & Hne & Hcat & ->).
  assert (Hlen : (length M <= length (concat M))%nat).
  { clear Hcat. induction Hne as [|m M Hm _ IH]; [done|].
    simpl. rewrite length_app. destruct m; [done|]. simpl. lia. }
  rewrite Hcat in Hlen.
  assert (HM : (1 <= length M)%nat).
  { destruct M; [discriminate Hcat|simpl; lia]. }
  case_bool_decide; simpl in *; lia.
Qed.

End WrapMore.

(** X1.  Every fragment [wrap] leaves either holds at most one word or
    measures no more than the width. *)
Theorem wrap_fragments_fit (measure : string -> Qc) (text : string)
    (width : Qc) :
  Forall (fragment_fits measure width) (fragments measure text width).
Proof.
  destruct (starts_with_space text) eqn:Hstart.
  - rewrite fragments_leading_space by done.
    constructor; [|constructor]. left. simpl. lia.
  - rewrite fragments_lines by done. apply Forall_fmap, Forall_forall.
    intros l Hl. simpl.
    pose proof (lines_fit measure width (words text)) as Hfit.
    pose proof (lines_are_words measure width _
                  (words_text_are_words text Hstart)) as Hw.
    rewrite Forall_forall in Hfit, Hw.
    unfold fragment_fits. rewrite words_join by (by apply Hw).
    by apply Hfit.
Qed.

(** X2.  A new fragment is started only when the next word does not fit:
    for two fragments in a row, the first one together with the first
    word of the second measures more than the width. *)
Theorem wrap_breaks_only_when_needed (measure : string -> Qc) (text : string)
    (width : Qc) (i : nat) (f g : string) :
  fragments measure text width !! i = Some f ->
  fragments measure text width !! S i = Some g ->
  exists w,
    head (words g) = Some w
    /\ width < measure (JSString.join (words f ++ [w])).
Proof.
  destruct (starts_with_space text) eqn:Hstart.
  { rewrite fragments_leading_space by done. intros _ H. discriminate H. }
  rewrite fragments_lines by done. rewrite !list_lookup_fmap.
  intros Hf Hg.
  destruct (lines measure width (words text) !! i) as [a|] eqn:Ha;
    [|discriminate Hf].
  destruct (lines measure width (words text) !! S i) as [b|] eqn:Hb;
    [|discriminate Hg].
  injection Hf as <-. injection Hg as <-.
  pose proof (lines_are_words measure width _
                (words_text_are_words text Hstart)) as Hw.
  rewrite Forall_forall in Hw.
  rewrite !words_join
    by (apply Hw; by eapply list_elem_of_lookup_2).
  destruct (lines_breaks measure width _ i a b Ha Hb) as (w & rest & -> & H).
  by exists w.
Qed.

Lemma wrap_breaks_only_when_needed_witness :
  fragments measure10 "hello world foo" (Qc_of_Z 60) !! 0%nat = Some "hello"
  /\ fragments measure10 "hello world foo" (Qc_of_Z 60) !! 1%nat = Some "world"
  /\ Qc_of_Z 60 < measure10 "hello world".
Proof.
  assert (H0 : fragments measure10 "hello world foo" (Qc_of_Z 60) !! 0%nat
               = Some "hello") by (vm_compute; reflexivity).
  assert (H1 : fragments measure10 "hello world foo" (Qc_of_Z 60) !! 1%nat
               = Some "world") by (vm_compute; reflexivity).
  destruct (wrap_breaks_only_when_needed measure10 "hello world foo"
              (Qc_of_Z 60) 0 "hello" "world" H0 H1) as (w & Hw & Hlt).
  split; [exact H0|]. split; [exact H1|].
  vm_compute in Hw. injection Hw as <-. exact Hlt.
Defined.

(** X3.  The fragments depend on the words of the text only: two texts
    without leading white space and with the same words are wrapped
    alike, whatever white space stands between and after the words. *)
Theorem wrap_depends_on_words_only (measure : string -> Qc)
    (text1 text2 : string) (width : Qc) :
  starts_with_space text1 = false ->
  starts_with_space text2 = false ->
  words text1 = words text2 ->
  fragments measure text1 width = fragments measure text2 width.
Proof. intros H1 H2 Hw. by rewrite !fragments_lines, Hw by done. Qed.

Lemma wrap_depends_on_words_only_witness :
  words "a  b c " = words "a b c"
  /\ fragments measure10 "a  b c " (Qc_of_Z 30)
     = fragments measure10 "a b c" (Qc_of_Z 30).
Proof.
  assert (Hw : words "a  b c " = words "a b c") by (vm_compute; reflexivity).
  split; [exact Hw|].
  exact (wrap_depends_on_words_only measure10 "a  b c " "a b c" (Qc_of_Z 30)
           eq_refl eq_refl Hw).
Defined.

(** X4.  A text that begins with white space is wrapped into one empty
    fragment: the first piece [split] yields is the empty string, which
    ends the loop before any word is placed. *)
Theorem wrap_leading_space_leaves_one_empty_fragment
    (measure : string -> Qc) (text : string) (width : Qc) :
  starts_with_space text = true ->
  fragments measure text width = [""].
Proof. apply fragments_leading_space. Qed.

Lemma wrap_leading_space_leaves_one_empty_fragment_witness :
  starts_with_space " North East" = true
  /\ fragments measure10 " North East" (Qc_of_Z 100) = [""].
Proof.
  split; [reflexivity|].
  exact (wrap_leading_space_leaves_one_empty_fragment measure10 " North East"
           (Qc_of_Z 100) eq_refl).
Defined.

(** X5.  When every line made of the first words of the text fits the
    width, the label is one fragment: the words joined by single
    spaces. *)
Theorem wrap_one_fragment_when_all_fits (measure : string -> Qc)
    (text : string) (width : Qc) :
  starts_with_space text = false ->
  (forall k, (0 < k <= length (words text))%nat ->
     measure (JSString.join (take k (words text))) <= width) ->
  fragments measure text width = [JSString.join (words text)].
Proof.
  intros Hstart Hfit. rewrite fragments_lines by done.
  unfold lines. rewrite (lines_all_fit measure width (words text) []).
  - reflexivity.
  - intros k Hk Hpos. simpl in *. apply Hfit. lia.
Qed.

Lemma wrap_one_fragment_when_all_fits_witness :
  starts_with_space "a b  c" = false
  /\ fragments measure10 "a b  c" (Qc_of_Z 100) = ["a b c"].
Proof.
  split; [reflexivity|].
  apply (wrap_one_fragment_when_all_fits measure10 "a b  c" (Qc_of_Z 100)).
  - reflexivity.
  - intros k Hk. change (words "a b  c") with ["a"; "b"; "c"] in *.
    destruct k as [|[|[|[|k]]]]; simpl in Hk; try lia; by vm_compute.
Defined.

(** X6.  [wrap] always leaves at least one fragment, and never more than
    one per word plus the possibly empty first one. *)
Theorem wrap_fragment_count (measure : string -> Qc) (text : string)
    (width : Qc) :
  (1 <= length (fragments measure text width)
   <= S (length (words text)))%nat.
Proof.
  destruct (starts_with_space text) eqn:Hstart.
  - rewrite fragments_leading_space by done. simpl. lia.
  - rewrite fragments_lines by done. rewrite length_fmap.
    apply lines_length.
Qed.

(** ** More on the scales *)

Lemma max_foldl_filter (data : list Datum) :
  forall m,
    foldl (fun m d => d3.max_step m (Math_max (Value1 d) (Value2 d))) m data
    = foldl (fun m d => d3.max_step m (Math_max (Value1 d) (Value2 d))) m
            (filter (fun d => Is_true (finiteb d)) data).
Proof.
  induction data as [|d data IH]; intros m; [done|].
  destruct (finiteb d) eqn:Hd.
  - rewrite filter_cons_True; [|simpl; by rewrite Hd]. simpl. apply IH.
  - rewrite filter_cons_False; [|simpl; rewrite Hd; by intros []]. simpl.
    assert (Hnan : Math_max (Value1 d) (Value2 d) = NaN).
    { unfold finiteb in Hd. destruct (Value1 d), (Value2 d); try done. }
    rewrite Hnan, max_step_NaN. apply IH.
Qed.

Lemma maxValue_filter (data : list Datum) :
  maxValue data = maxValue (filter (fun d => Is_true (finiteb d)) data).
Proof. apply max_foldl_filter. Qed.

(** X7.  A point with a NaN value does not move the others: the
    horizontal scale is the one of the data without such points. *)
Theorem xScale_ignores_NaN_points (data : list Datum) (width : Qc)
    (v : number) :
  maxValue data = maxValue (filter (fun d => Is_true (finiteb d)) data)
  /\ xScale data width v
     = xScale (filter (fun d => Is_true (finiteb d)) data) width v.
Proof.
  split; [apply maxValue_filter|]. unfold xScale. by rewrite <- maxValue_filter.
Qed.

(** X8.  When every point of the data has a NaN value (no data at all
    included), [d3.max] is undefined, the domain is [0, NaN] and the
    scale sends every finite value to NaN. *)
Theorem xScale_when_every_point_has_NaN (data : list Datum) (width : Qc) :
  Forall (fun d => Value1 d = NaN \/ Value2 d = NaN) data ->
  maxValue data = None
  /\ forall v : Qc, xScale data width (Num v) = Some NaN.
Proof.
  intros H.
  assert (Hf : filter (fun d => Is_true (finiteb d)) data = []).
  { induction H as [|d data Hd _ IH]; [done|].
    rewrite filter_cons_False; [exact IH|]. simpl. unfold finiteb.
    destruct Hd as [-> | ->]; [by intros []|].
    destruct (Value1 d); by intros []. }
  assert (Hm : maxValue data = None) by (by rewrite maxValue_filter, Hf).
  split; [exact Hm|]. intros v. unfold xScale. rewrite Hm. reflexivity.
Qed.

Lemma xScale_when_every_point_has_NaN_witness :
  Forall (fun d => Value1 d = NaN \/ Value2 d = NaN)
         [mkDatum "A" NaN (Num (int 20))]
  /\ xScale [mkDatum "A" NaN (Num (int 20))] (Qc_of_Z 500) (Num (int 20))
     = Some NaN.
Proof.
  assert (H : Forall (fun d => Value1 d = NaN \/ Value2 d = NaN)
                     [mkDatum "A" NaN (Num (int 20))])
    by (repeat constructor).
  split; [exact H|].
  apply (xScale_when_every_point_has_NaN _ (Qc_of_Z 500) H).
Defined.

(** ** More on the vertical scale and the colours *)

Lemma point_values_length_any (k : nat) (r0 r1 : Qc) :
  length (d3.point_values k r0 r1) = k.
Proof.
  unfold d3.point_values. case_bool_decide.
  - by rewrite length_rev, length_fmap, length_seq.
  - by rewrite length_fmap, length_seq.
Qed.

Lemma scalePoint_hit (vs : list string) (r0 r1 : Qc) (c : string) :
  c ∈ vs ->
  exists i y,
    (d3.ordinal_domain vs).2 !! c = Some i
    /\ (i < length (d3.ordinal_domain vs).1)%nat
    /\ d3.point_values (length (d3.ordinal_domain vs).1) r0 r1 !! i = Some y
    /\ d3.scalePoint vs r0 r1 c = Some (Num y).
Proof.
  intros Hc. destruct (ordinal_domain_hit vs c Hc) as (i & Hi & Hlt).
  unfold d3.scalePoint. destruct (d3.ordinal_domain vs) as [dom index].
  simpl in *. rewrite Hi, point_values_length_any, Nat.mod_small by done.
  destruct (d3.point_values (length dom) r0 r1 !! i) as [y|] eqn:Hy.
  - by exists i, y.
  - apply lookup_ge_None in Hy. rewrite point_values_length_any in Hy. lia.
Qed.

(** X9.  Every point of the data gets a y from the category scale,
    whatever the height and also when categories repeat, so the case of
    a category without a position never occurs. *)
Theorem yScale_defined_on_data (data : list Datum) (height : Qc) (d : Datum) :
  d ∈ data ->
  exists y, yScale data height (Categories d) = Some (Num y).
Proof.
  intros Hd.
  assert (Hc : Categories d ∈ Categories <$> data)
    by (by apply list_elem_of_fmap_2).
  destruct (scalePoint_hit (Categories <$> data) (top margin)
              (height - bottom margin) (Categories d) Hc)
    as (i & y & _ & _ & _ & Hs).
  by exists y.
Qed.

Lemma yScale_defined_on_data_witness :
  mkDatum "B" (Num 0) (Num (int 5)) ∈ two_points
  /\ exists y, yScale two_points (Qc_of_Z 300) "B" = Some (Num y).
Proof.
  assert (Hin : mkDatum "B" (Num 0) (Num (int 5)) ∈ two_points).
  { apply elem_of_cons. right. apply elem_of_cons. by left. }
  split; [exact Hin|].
  exact (yScale_defined_on_data two_points (Qc_of_Z 300) _ Hin).
Defined.

Lemma ordinal_foldl_same (c : string) (vs : list string) :
  Forall (fun v => v = c) vs ->
  foldl d3.ordinal_push ([c], {[c := 0%nat]}) vs = ([c], {[c := 0%nat]}).
Proof.
  induction 1 as [|v vs -> _ IH]; [done|]. simpl.
  unfold d3.ordinal_push at 2. simpl. by rewrite lookup_singleton_eq.
Qed.

(** The one position of a point scale over a single key: the smaller
    end of the range plus half of the range. *)
Lemma point_values_single (r0 r1 : Qc) :
  d3.point_values 1 r0 r1
  = [if bool_decide (r1 < r0) then r1 + (r0 - r1) * d3.align
     else r0 + (r1 - r0) * d3.align].
Proof.
  unfold d3.point_values, d3.paddingInner, d3.paddingOuter, d3.align.
  change (Z.of_nat 0) with 0%Z.
  change (Z.max 1 (Z.of_nat 1 - 1 + 0 * 2)) with 1%Z.
  change (Z.of_nat 1 - 1)%Z with 0%Z.
  rewrite Z2Qc_inj_0, Z2Qc_inj_1, Qc_half.
  assert (H1 : (1 : Qc) <> 0) by (intros H; by apply (f_equal this) in H).
  case_bool_decide; simpl; f_equal;
    change (Z.of_nat 0) with 0%Z; rewrite Z2Qc_inj_0; field; split;
    first [exact H1 | apply Qc_two_neq_0].
Qed.

(** X10.  With a single category (one point, or several points of the same
    category) the y is the smaller end of the range plus half of the
    range, start + (stop - start) * 0.5, the middle of the range: from
    [margin.top] when the range rises and from [height - margin.bottom]
    when it falls, whatever the height. *)
Theorem yScale_single_category_midpoint (data : list Datum) (height : Qc)
    (c : string) :
  data <> [] ->
  Forall (fun d => Categories d = c) data ->
  let r0 := top margin in
  let r1 := height - bottom margin in
  yScale data height c
  = Some (Num (if bool_decide (r1 < r0) then r1 + (r0 - r1) * d3.align
               else r0 + (r1 - r0) * d3.align)).
Proof.
  intros Hne Hall r0 r1. unfold yScale, d3.scalePoint, d3.ordinal_domain.
  destruct data as [|d data]; [done|].
  inversion_clear Hall as [|? ? Hd Hrest]. simpl. rewrite Hd.
  unfold d3.ordinal_push at 2. simpl. rewrite lookup_empty. simpl.
  change (<[c:=0%nat]> (∅ : gmap string nat)) with ({[c := 0%nat]} : gmap string nat).
  rewrite ordinal_foldl_same by (by apply Forall_fmap).
  rewrite lookup_singleton_eq. simpl. by rewrite point_values_single.
Qed.

Lemma yScale_single_category_midpoint_witness :
  zeros <> []
  /\ yScale zeros (Qc_of_Z 300) "A"
     = Some (Num (top margin
                  + (Qc_of_Z 300 - bottom margin - top margin) * d3.align)).
Proof.
  split; [discriminate|].
  apply (yScale_single_category_midpoint zeros (Qc_of_Z 300) "A").
  - discriminate.
  - repeat constructor.
Defined.

(** Distinct categories take the colours of the palette in order,
    starting over after the eighth. *)
Lemma colourScale_hit (data : list Datum) (i : nat)
    (d : Datum) :
  NoDup (Categories <$> data) ->
  data !! i = Some d ->
  colourScale data (Categories d) = colourPalette !! (i mod 8)%nat
  /\ exists colour, colourPalette !! (i mod 8)%nat = Some colour.
Proof.
  intros Hnd Hi. unfold colourScale, d3.scaleOrdinal.
  destruct (ordinal_domain_NoDup _ Hnd) as (index & -> & Hindex).
  assert (Hc : (Categories <$> data) !! i = Some (Categories d))
    by (by rewrite list_lookup_fmap, Hi).
  apply Hindex in Hc. rewrite Hc. split; [reflexivity|].
  apply lookup_lt_is_Some_2. change (length colourPalette) with 8%nat.
  apply Nat.mod_upper_bound. lia.
Qed.

(** ** More on [update] *)

Section DrawMore.
Variable measure : string -> Qc.
Variable number_toString : number -> string.
Variable data : list Datum.
Variables width height : Qc.

Local Opaque selection.set_attr.

Ltac chain_attr :=
  unfold built, linesV1V2, circles1, circles2, value1Labels, value2Labels;
  simpl;
  rewrite ?attrs_set_attr_ne by done;
  rewrite ?attrs_set_attr_eq; try done.

Lemma connector_stroke d :
  attrs (built "line" (linesV1V2 data width height) d) !! "stroke"
  = colour_attr (colourScale data (Categories d)).
Proof. chain_attr. Qed.

Lemma circle1_colours d :
  let c := built "circle" (circles1 data width height) d in
  attrs c !! "fill" = Some (AStr "white")
  /\ attrs c !! "stroke" = colour_attr (colourScale data (Categories d)).
Proof. split; chain_attr. Qed.

Lemma circle2_colours d :
  let c := built "circle" (circles2 data width height) d in
  attrs c !! "fill" = colour_attr (colourScale data (Categories d))
  /\ attrs c !! "stroke" = colour_attr (colourScale data (Categories d))
  /\ attrs c !! "cx" = value_attr (xScale data width (Value2 d)).
Proof. repeat split; chain_attr. Qed.

Lemma label_fills d :
  attrs (built "text" (value1Labels number_toString data width height) d)
    !! "fill" = colour_attr (colourScale data (Categories d))
  /\ attrs (built "text" (value2Labels number_toString data width height) d)
       !! "fill" = Some (AStr "white").
Proof. split; chain_attr. Qed.

Lemma draw_attrs (svg : Svg) :
  svg_attrs (draw measure number_toString data width height svg)
  = svg_attrs svg.
Proof. reflexivity. Qed.

End DrawMore.

Section UpdateMore.
Variable measure : string -> Qc.
Variable number_toString : number -> string.

(** What [update] leaves depends on the options alone, apart from the
    attributes the surface already had. *)
Lemma update_shape (options : VisualUpdateOptions) :
  exists (L : list Element) (c : Completion),
    forall svg,
      update measure number_toString svg options
      = ({| svg_attrs :=
              svg_attrs (clear (width (viewport options))
                               (height (viewport options)) svg);
            svg_children := L |}, c).
Proof.
  destruct (dataset options) as [data|] eqn:Hd.
  - exists (layers measure number_toString data (width (viewport options))
                   (height (viewport options))), Return.
    intros svg. rewrite (update_dataset measure number_toString svg options data Hd).
    f_equal.
    pose proof (draw_children measure number_toString data
                  (width (viewport options)) (height (viewport options))
                  (clear (width (viewport options))
                         (height (viewport options)) svg) eq_refl) as Hch.
    pose proof (draw_attrs measure number_toString data
                  (width (viewport options)) (height (viewport options))
                  (clear (width (viewport options))
                         (height (viewport options)) svg)) as Hat.
    destruct (draw measure number_toString data (width (viewport options))
                (height (viewport options)) _) as [a ch].
    simpl in Hch, Hat. by rewrite Hch, Hat.
  - unfold dataset, the_categorical in Hd. unfold update.
    destruct (head (dataViews options)) as [dv|];
      [|by exists [], Return].
    cbn [mbind option_bind] in Hd |- *.
    destruct (categorical dv) as [c|]; [|by exists [], Return].
    destruct (categories c) as [[|cats crest]|]; [| |by exists [], Return].
    + destruct (values c) as [[|v1 [|v2 vrest]]|];
        first [by exists [], Return | by exists [], TypeError].
    + destruct (values c) as [[|v1 [|v2 vrest]]|];
        first [discriminate Hd | by exists [], Return].
Qed.

End UpdateMore.

(** X11.  [update] throws exactly when the data view has a [categories]
    array without any column beside at least two measure columns; the
    surface has been cleared by then. *)
Theorem update_throws_without_category_column (measure : string -> Qc)
    (number_toString : number -> string) (svg : Svg)
    (options : VisualUpdateOptions) :
  ((update measure number_toString svg options).2 = TypeError
   <-> exists c vs,
         the_categorical options = Some c
         /\ categories c = Some []
         /\ values c = Some vs /\ (2 <= length vs)%nat)
  /\ ((update measure number_toString svg options).2 = TypeError ->
      svg_children (update measure number_toString svg options).1 = []).
Proof.
  split.
  - unfold the_categorical, update.
    destruct (head (dataViews options)) as [dv|]; cbn [mbind option_bind].
    2: { split; [discriminate|]. by intros (c & vs & H & _). }
    destruct (categorical dv) as [c|].
    2: { split; [discriminate|]. by intros (c & vs & H & _). }
    destruct (categories c) as [[|cats crest]|] eqn:Hc.
    + destruct (values c) as [[|v1 [|v2 vrest]]|] eqn:Hv; cbn [snd].
      * split; [discriminate|]. intros (c' & vs & [= <-] & _ & Hvs & Hlen).
        rewrite Hv in Hvs. injection Hvs as <-. simpl in Hlen. lia.
      * split; [discriminate|]. intros (c' & vs & [= <-] & _ & Hvs & Hlen).
        rewrite Hv in Hvs. injection Hvs as <-. simpl in Hlen. lia.
      * split; [intros _|done]. exists c, (v1 :: v2 :: vrest).
        repeat split; [done|done|simpl; lia].
      * split; [discriminate|]. intros (c' & vs & [= <-] & _ & Hvs & _).
        rewrite Hv in Hvs. discriminate Hvs.
    + split.
      * destruct (values c) as [[|v1 [|v2 vrest]]|]; discriminate.
      * intros (c' & vs & [= <-] & Hc' & _). rewrite Hc in Hc'. discriminate Hc'.
    + split; [discriminate|].
      intros (c' & vs & [= <-] & Hc' & _). rewrite Hc in Hc'. discriminate Hc'.
  - unfold update.
    destruct (head (dataViews options)) as [dv|]; [|discriminate].
    destruct (categorical dv) as [c|]; [|discriminate].
    destruct (categories c) as [[|cats crest]|]; [| |discriminate].
    + destruct (values c) as [[|v1 [|v2 vrest]]|]; cbn [fst snd];
        first [discriminate | reflexivity].
    + destruct (values c) as [[|v1 [|v2 vrest]]|]; cbn [fst snd];
        discriminate.
Qed.

(** X12.  Every call replaces what was drawn before: the children and the
    way the call ends depend on the options only, the surface carries
    the width and the height of the viewport, and calling [update] again
    with the same options changes nothing. *)
Theorem update_replaces_surface (measure : string -> Qc)
    (number_toString : number -> string) (svg svg' : Svg)
    (options : VisualUpdateOptions) :
  let out := update measure number_toString svg options in
  svg_children out.1
  = svg_children (update measure number_toString svg' options).1
  /\ out.2 = (update measure number_toString svg' options).2
  /\ svg_attrs out.1 !! "width"
     = Some (ANum (Num (width (viewport options))))
  /\ svg_attrs out.1 !! "height"
     = Some (ANum (Num (height (viewport options))))
  /\ update measure number_toString out.1 options = out.
Proof.
  intros out. unfold out.
  destruct (update_shape measure number_toString options) as (L & c & Hu).
  rewrite !Hu. cbn [fst snd svg_children svg_attrs clear].
  split; [reflexivity|]. split; [reflexivity|].
  split; [by rewrite lookup_insert_ne, lookup_insert_eq by done|].
  split; [by rewrite lookup_insert_eq|].
  do 2 f_equal.
  rewrite (insert_insert_ne _ "width" "height") by done.
  by rewrite !insert_insert_eq.
Qed.

(** X13.  With distinct categories, the point at position [i] is drawn in
    the palette colour number [i mod 8]: it is the stroke of its
    connector and of both circles, the fill of the Value2 circle and of
    the Value1 label; the Value1 circle and the Value2 label are filled
    white. *)
Theorem point_colours (measure : string -> Qc)
    (number_toString : number -> string) (svg : Svg)
    (options : VisualUpdateOptions) (data : list Datum) (i : nat) (d : Datum) :
  dataset options = Some data ->
  NoDup (Categories <$> data) ->
  data !! i = Some d ->
  let out := (update measure number_toString svg options).1 in
  let n := length data in
  exists colour c c1 c2 l1 l2,
    colourPalette !! (i mod 8)%nat = Some colour
    /\ svg_children out !! (1 * n + i)%nat = Some c
    /\ svg_children out !! (2 * n + i)%nat = Some c1
    /\ svg_children out !! (3 * n + i)%nat = Some c2
    /\ svg_children out !! (4 * n + i)%nat = Some l1
    /\ svg_children out !! (5 * n + i)%nat = Some l2
    /\ attrs c !! "stroke" = Some (AStr colour)
    /\ attrs c1 !! "stroke" = Some (AStr colour)
    /\ attrs c1 !! "fill" = Some (AStr "white")
    /\ attrs c2 !! "stroke" = Some (AStr colour)
    /\ attrs c2 !! "fill" = Some (AStr colour)
    /\ attrs l1 !! "fill" = Some (AStr colour)
    /\ attrs l2 !! "fill" = Some (AStr "white").
Proof.
  intros Hd Hnd Hi out n.
  destruct (colourScale_hit data i d Hnd Hi) as [Hcol [colour Hcolour]].
  destruct (update_children measure number_toString svg options data Hd)
    as [_ Hch].
  set (w := width (viewport options)) in *.
  set (h := height (viewport options)) in *.
  exists colour,
    (built "line" (linesV1V2 data w h) d),
    (built "circle" (circles1 data w h) d),
    (built "circle" (circles2 data w h) d),
    (built "text" (value1Labels number_toString data w h) d),
    (built "text" (value2Labels number_toString data w h) d).
  unfold out, n. rewrite Hch.
  split; [exact Hcolour|].
  split; [apply (layers_lookup measure number_toString data w h 1
                   "linesV1V2" "line" _ i d eq_refl Hi)|].
  split; [apply (layers_lookup measure number_toString data w h 2
                   "circles1" "circle" _ i d eq_refl Hi)|].
  split; [apply (layers_lookup measure number_toString data w h 3
                   "circles2" "circle" _ i d eq_refl Hi)|].
  split; [apply (layers_lookup measure number_toString data w h 4
                   "value1Labels" "text" _ i d eq_refl Hi)|].
  split; [apply (layers_lookup measure number_toString data w h 5
                   "value2Labels" "text" _ i d eq_refl Hi)|].
  assert (Hattr : colour_attr (colourScale data (Categories d))
                  = Some (AStr colour)) by (by rewrite Hcol, Hcolour).
  destruct (circle1_colours data w h d) as [Hf1 Hs1].
  destruct (circle2_colours data w h d) as (Hf2 & Hs2 & _).
  destruct (label_fills number_toString data w h d) as [Hl1 Hl2].
  rewrite connector_stroke, Hs1, Hf2, Hs2, Hl1, Hattr.
  repeat split; done.
Qed.

Lemma point_colours_witness :
  let options :=
    options_of (Qc_of_Z 500) (Qc_of_Z 300) ["A"; "B"]
               [n 10; n 0] [n 20; n 5] in
  let out := (update measure10 sample_toString blank options).1 in
  exists c2,
    svg_children out !! 7%nat = Some c2
    /\ attrs c2 !! "fill" = Some (AStr "#375071").
Proof.
  intros options out.
  assert (Hnd : NoDup (Categories <$> two_points)).
  { simpl. apply NoDup_cons. split.
    - intros H. apply list_elem_of_singleton in H. discriminate H.
    - apply NoDup_singleton. }
  destruct (point_colours measure10 sample_toString blank options two_points
              1 _ eq_refl Hnd eq_refl)
    as (colour & c & c1 & c2 & l1 & l2 & Hc & _ & _ & H2 & _ & _ & _ & _ & _
        & _ & Hfill & _).
  exists c2. split; [exact H2|].
  injection Hc as <-. exact Hfill.
Defined.

(** X15.  [data] has one entry per category cell, in order; a measure
    column that is too short gives NaN for the missing cells, and cells
    of a measure column beyond the last category are not read. *)
Theorem extract_follows_categories (cats : list string)
    (value1 value2 : list PrimitiveValue) :
  length (extract cats value1 value2) = length cats
  /\ forall i c, cats !! i = Some c ->
       exists d,
         extract cats value1 value2 !! i = Some d
         /\ Categories d = c
         /\ Value1 d = Number (index value1 i)
         /\ Value2 d = Number (index value2 i)
         /\ ((length value1 <= i)%nat -> Value1 d = NaN)
         /\ ((length value2 <= i)%nat -> Value2 d = NaN)
         /\ extract cats (take (length cats) value1)
                    (take (length cats) value2) !! i = Some d.
Proof.
  unfold extract. split; [apply length_imap|].
  intros i c Hc. eexists. rewrite !list_lookup_imap, Hc.
  split; [reflexivity|]. cbn [Categories Value1 Value2].
  split; [reflexivity|]. split; [reflexivity|]. split; [reflexivity|].
  assert (Hi : (i < length cats)%nat) by (by eapply lookup_lt_Some).
  split; [|split].
  - intros Hlen. unfold index. by rewrite (lookup_ge_None_2 _ _ Hlen).
  - intros Hlen. unfold index. by rewrite (lookup_ge_None_2 _ _ Hlen).
  - simpl. unfold index. by rewrite !lookup_take_lt by done.
Qed.
